(** * flowdesk-app: a shallow embedding of the automation core

    The development follows the TypeScript sources module by module:
    - [Str]: the JavaScript string methods the code calls
      ([toLowerCase], [trim], [includes], [startsWith], [charCodeAt]);
    - [Buf]: Node [Buffer]s as lists of bytes, hex encoding, [subarray];
    - [Js]: property values, [Error] objects, and the outcome of a call;
    - [NodeCrypto]: the slice of Node's [crypto] module the code uses;
    - [Crypto]: [src/crypto.ts];
    - [Config]: the directories of [src/config.ts];
    - [ProfileStore]: the profile vault, [profiles/store.ts]
      ([saveProfileToDisk], [restoreProfileFromDisk]);
    - [Cookies]: [src/cookies.ts];
    - [Fingerprint]: [src/fingerprint.ts];
    - [Accounts]: [src/accounts.ts];
    - [BrowserManager]: the session registry, [browserManager.ts];
    - [Automation]: the state the flows share and the ways a browser call
      can end;
    - [Health]: the health prober, [check/health.ts];
    - [Login]: the two login flows, [login/flipkart.ts] and
      [login/shopsy.ts];
    - [Scenarios]: concrete runs of the above;
    - [StrFacts], [AccountsFacts], [ProfileStoreFacts], [HealthFacts],
      [LoginFacts]: further facts about the modules above;
    - [CookieStore]: the cookie files of [src/cookies.ts];
    - [Cli]: the summary of the [check] command of [src/cli.ts];
    - [Auth]: [src/auth.ts];
    - [CleanAccounts]: the repair script [clean_accounts.cjs];
    - [Runs]: further concrete runs.

    JavaScript objects that are used as open records are finite maps from
    property names to values. An asynchronous function is a state-passing
    function that returns the settlement of its promise; each call runs to
    its end before the next one starts, which is how the write queue of the
    account store orders them. What lies outside the program (the clock,
    the random source, the disk's willingness to write, the browser and the
    mailboxes) is an explicit argument. *)

From Stdlib Require Import Ascii.
From Stdlib Require String.
From Stdlib Require Import Init.Byte.
From Stdlib Require QArith_base.
From stdpp Require Import base option list gmap strings.

Set Default Proof Using "Type".

(* ================================================================== *)
(** * JavaScript strings *)
(* ================================================================== *)

Module Str.

(** A string is a sequence of code units; the model covers the code units
    [0..255], which is what account ids, domains and marker texts use. *)

Definition charCode (c : ascii) : nat := nat_of_ascii c.

(** The code units with a lower-case form in this range: [A]-[Z], and the
    accented capitals 192-222 without the multiplication sign 215. *)
Definition is_upper (c : ascii) : bool :=
  let n := charCode c in
  ((65 <=? n)%nat && (n <=? 90)%nat) ||
  ((192 <=? n)%nat && (n <=? 222)%nat && negb (n =? 215)%nat).

Definition lower_char (c : ascii) : ascii :=
  if is_upper c then ascii_of_nat (charCode c + 32) else c.

(** [s.toLowerCase()] *)
Fixpoint toLowerCase (s : string) : string :=
  match s with
  | EmptyString => EmptyString
  | String c r => String (lower_char c) (toLowerCase r)
  end.

(** White space as [String.prototype.trim] sees it in this range: TAB, LF,
    VT, FF, CR, SPACE and NBSP. *)
Definition is_space (c : ascii) : bool :=
  let n := charCode c in
  ((9 <=? n)%nat && (n <=? 13)%nat) || (n =? 32)%nat || (n =? 160)%nat.

Fixpoint trimStart (s : string) : string :=
  match s with
  | EmptyString => EmptyString
  | String c r => if is_space c then trimStart r else s
  end.

Definition is_empty (s : string) : bool :=
  match s with EmptyString => true | _ => false end.

Fixpoint trimEnd (s : string) : string :=
  match s with
  | EmptyString => EmptyString
  | String c r =>
      let r' := trimEnd r in
      if is_space c && is_empty r' then EmptyString else String c r'
  end.

(** [s.trim()] *)
Definition trim (s : string) : string := trimEnd (trimStart s).

(** [s.startsWith(p)] *)
Definition startsWith (s p : string) : bool := String.prefix p s.

(** [s.includes(sub)] *)
Fixpoint includes (s sub : string) : bool :=
  String.prefix sub s ||
  match s with
  | EmptyString => false
  | String _ r => includes r sub
  end.

(** [s.endsWith(suf)] *)
Fixpoint endsWith (s suf : string) : bool :=
  String.eqb s suf ||
  match s with
  | EmptyString => false
  | String _ r => endsWith r suf
  end.

(** The stored form of an account id: [id.toLowerCase().trim()]. *)
Definition normalizeId (s : string) : string := trim (toLowerCase s).

(** [let sum = 0; for (i...) sum += seed.charCodeAt(i)] *)
Fixpoint charCodeSum (s : string) : nat :=
  match s with
  | EmptyString => 0
  | String c r => charCode c + charCodeSum r
  end.

End Str.

(* ================================================================== *)
(** * Buffers *)
(* ================================================================== *)

Module Buf.

Abbreviation bytes := (list byte).

(** [buf.subarray(start, end)]: indices are clamped to the buffer. *)
Definition subarray (b : bytes) (start stop : nat) : bytes :=
  take (stop - start) (drop start b).

(** [buf.subarray(start)] *)
Definition subarray_from (b : bytes) (start : nat) : bytes := drop start b.

Definition byte_eqb (a b : byte) : bool := Byte.eqb a b.

Fixpoint bytes_eqb (a b : bytes) : bool :=
  match a, b with
  | [], [] => true
  | x :: a', y :: b' => byte_eqb x y && bytes_eqb a' b'
  | _, _ => false
  end.

(** Bitwise exclusive or of two bytes. *)
Definition xor_bits (x y : bool * (bool * (bool * (bool * (bool * (bool * (bool * bool)))))))
  : bool * (bool * (bool * (bool * (bool * (bool * (bool * bool)))))) :=
  let '(x0, (x1, (x2, (x3, (x4, (x5, (x6, x7))))))) := x in
  let '(y0, (y1, (y2, (y3, (y4, (y5, (y6, y7))))))) := y in
  (xorb x0 y0, (xorb x1 y1, (xorb x2 y2, (xorb x3 y3,
   (xorb x4 y4, (xorb x5 y5, (xorb x6 y6, xorb x7 y7))))))).

Definition byte_xor (a b : byte) : byte :=
  Byte.of_bits (xor_bits (Byte.to_bits a) (Byte.to_bits b)).

(** Hex digits, lower case, as [buf.toString('hex')] prints them. *)
Definition hex_digit (n : N) : ascii :=
  match n with
  | 0 => "0" | 1 => "1" | 2 => "2" | 3 => "3" | 4 => "4" | 5 => "5"
  | 6 => "6" | 7 => "7" | 8 => "8" | 9 => "9" | 10 => "a" | 11 => "b"
  | 12 => "c" | 13 => "d" | 14 => "e" | _ => "f"
  end%N%char.

(** A hex digit's value; [Buffer.from(s, 'hex')] accepts both cases. *)
Definition hex_value (c : ascii) : option N :=
  let n := N_of_ascii c in
  if (48 <=? n)%N && (n <=? 57)%N then Some (n - 48)%N
  else if (97 <=? n)%N && (n <=? 102)%N then Some (n - 87)%N
  else if (65 <=? n)%N && (n <=? 70)%N then Some (n - 55)%N
  else None.

Definition byte_of_N (n : N) : byte :=
  match Byte.of_N n with Some b => b | None => x00 end.

(** [buf.toString('hex')] *)
Fixpoint toHex (b : bytes) : string :=
  match b with
  | [] => EmptyString
  | x :: r =>
      let n := Byte.to_N x in
      String (hex_digit (n / 16)) (String (hex_digit (n mod 16)) (toHex r))
  end.

(** [Buffer.from(s, 'hex')]: decoding stops at the first pair that is not
    two hex digits; a trailing single character is dropped. *)
Fixpoint fromHex (s : string) : bytes :=
  match s with
  | String c1 (String c2 r) =>
      match hex_value c1, hex_value c2 with
      | Some h, Some l => byte_of_N (h * 16 + l) :: fromHex r
      | _, _ => []
      end
  | _ => []
  end.

Lemma byte_eqb_refl (b : byte) : byte_eqb b b = true.
Proof. unfold byte_eqb. apply Byte.byte_dec_lb. reflexivity. Qed.

Lemma bytes_eqb_eq (a b : bytes) : bytes_eqb a b = true <-> a = b.
Proof.
  revert b; induction a as [|x a IH]; intros [|y b]; simpl; split;
    try congruence; try done.
  - intros [Hxy Hab]%andb_prop. apply Byte.byte_dec_bl in Hxy.
    apply IH in Hab. by subst.
  - intros [= -> ->]. rewrite byte_eqb_refl. simpl. by apply IH.
Qed.

Lemma xor_bits_cancel x y : xor_bits (xor_bits x y) y = x.
Proof.
  destruct x as (x0 & x1 & x2 & x3 & x4 & x5 & x6 & x7).
  destruct y as (y0 & y1 & y2 & y3 & y4 & y5 & y6 & y7).
  unfold xor_bits.
  repeat f_equal; (rewrite Bool.xorb_assoc, Bool.xorb_nilpotent; apply Bool.xorb_false_r).
Qed.

Lemma byte_xor_cancel (a k : byte) : byte_xor (byte_xor a k) k = a.
Proof.
  unfold byte_xor. rewrite Byte.to_bits_of_bits, xor_bits_cancel.
  apply Byte.of_bits_to_bits.
Qed.

Lemma fromHex_byte (x : byte) (r : string) :
  fromHex (String (hex_digit (Byte.to_N x / 16))
             (String (hex_digit (Byte.to_N x mod 16)) r)) = x :: fromHex r.
Proof. destruct x; reflexivity. Qed.

(** Decoding the hex form of a buffer gives the buffer back. *)
Lemma fromHex_toHex (b : bytes) : fromHex (toHex b) = b.
Proof.
  induction b as [|x b IH]; [done|].
  cbn [toHex]. rewrite fromHex_byte. by rewrite IH.
Qed.

Lemma take_exact (a r : bytes) (n : nat) : length a = n -> take n (a ++ r) = a.
Proof. intros <-. apply take_app_length. Qed.

Lemma drop_exact (a r : bytes) (n : nat) : length a = n -> drop n (a ++ r) = r.
Proof. intros <-. apply drop_app_length. Qed.

Lemma length_subarray (b : bytes) (i j : nat) :
  j <= length b -> length (subarray b i j) = j - i.
Proof. intros H. unfold subarray. rewrite length_take, length_drop. lia. Qed.

End Buf.

(* ================================================================== *)
(** * JavaScript values, errors and settled promises *)
(* ================================================================== *)

Module Js.

(** The values that occur as properties of the objects of this program. *)
#[warnings="-register-all"]
Inductive jsval : Type :=
  | JUndefined
  | JNull
  | JBool (b : bool)
  | JNum (n : Z)
  | JStr (s : string)
  | JObj (fields : list (string * jsval)).

(** An open record: property name to value. *)
Abbreviation obj := (gmap string jsval).

Definition is_undefined (v : jsval) : bool :=
  match v with JUndefined => true | _ => false end.

(** JavaScript truthiness. *)
Definition truthy (v : jsval) : bool :=
  match v with
  | JUndefined | JNull => false
  | JBool b => b
  | JNum n => negb (n =? 0)%Z
  | JStr s => negb (Str.is_empty s)
  | JObj _ => true
  end.

(** An [Error] object: its [name] and [message]. *)
Record JsError : Type := mkError { name : string; message : string }.

(** [String(err)] *)
Definition errorToString (e : JsError) : string :=
  name e +:+ ": " +:+ message e.

(** The outcome of a call that either returns or throws; for an [async]
    function, the settlement of the promise it returns. *)
Inductive Result (A : Type) : Type :=
  | Ok (a : A)
  | Throw (e : JsError).
Global Arguments Ok {A} a.
Global Arguments Throw {A} e.

Definition bind {A B} (r : Result A) (k : A -> Result B) : Result B :=
  match r with
  | Ok a => k a
  | Throw e => Throw e
  end.

Definition is_ok {A} (r : Result A) : bool :=
  match r with Ok _ => true | Throw _ => false end.

Lemma Ok_inj {A} (a b : A) : Ok a = Ok b -> a = b.
Proof. by intros [= ->]. Qed.

End Js.

Notation "x <-! r ; k" := (Js.bind r (fun x => k))
  (at level 100, r at next level, right associativity, only parsing).

(* ================================================================== *)
(** * Node's [crypto] module *)
(* ================================================================== *)

Module NodeCrypto.
Import Buf Js.

Inductive Digest := SHA256 | SHA512.

(** The three primitives are those of the platform, not of this program.
    They are kept abstract, each given as the stream of the bytes it
    produces:
    - PBKDF2 emits its derived key block after block and the caller takes
      the first [keylen] bytes;
    - AES in counter mode, as GCM runs it, emits a key stream that is
      combined with the data by exclusive or;
    - GHASH with the final encryption emits the 16-byte tag over the
      cipher text (there is no additional data in this program). *)
Class Primitives : Type := {
  pbkdf2_stream : string -> bytes -> N -> Digest -> nat -> byte;
  ctr_keystream : bytes -> bytes -> nat -> byte;
  gcm_tag_stream : bytes -> bytes -> bytes -> nat -> byte;
}.

(** A source of random bytes, consumed from the front. *)
Definition Entropy : Type := nat -> byte.

(** [crypto.randomBytes(n)] *)
Definition randomBytes (n : nat) (e : Entropy) : bytes * Entropy :=
  (map e (seq 0 n), fun i => e (n + i)).

Definition errInvalidKeyLength : JsError := mkError "RangeError" "Invalid key length".
Definition errInvalidIV : JsError := mkError "TypeError" "Invalid initialization vector".
Definition errInvalidTagLength : JsError :=
  mkError "TypeError" "Invalid authentication tag length".
Definition errAuth : JsError :=
  mkError "Error" "Unsupported state or unable to authenticate data".

(** The tag lengths GCM accepts when [authTagLength] is not given. *)
Definition gcm_tag_lengths : list nat := [4; 8; 12; 13; 14; 15; 16].

Section WithPrimitives.
Context `{Primitives}.

(** [crypto.pbkdf2Sync(password, salt, iterations, keylen, digest)] *)
Definition pbkdf2Sync (password : string) (salt : bytes)
    (iterations : N) (keylen : nat) (digest : Digest) : bytes :=
  map (pbkdf2_stream password salt iterations digest) (seq 0 keylen).

(** [cipher.update(data)] followed by [cipher.final()], and the same for a
    decipher: position [i] of the data is combined with position [i] of the
    key stream. *)
Fixpoint ctr_xor (key iv : bytes) (pos : nat) (data : bytes) : bytes :=
  match data with
  | [] => []
  | x :: r => byte_xor x (ctr_keystream key iv pos) :: ctr_xor key iv (S pos) r
  end.

(** The tag of [tagLen] bytes over a cipher text. *)
Definition gcm_tag (key iv ct : bytes) (tagLen : nat) : bytes :=
  map (gcm_tag_stream key iv ct) (seq 0 tagLen).

(** [createCipheriv('aes-256-gcm', key, iv, {authTagLength})], the whole
    plain text through [update]/[final], then [getAuthTag]: the cipher text
    and the tag. [authTagLength] defaults to 16. *)
Definition gcm_encrypt (key iv : bytes) (authTagLength : option nat)
    (data : bytes) : Result (bytes * bytes) :=
  if negb (length key =? 32) then Throw errInvalidKeyLength
  else if (length iv =? 0) then Throw errInvalidIV
  else
    let ct := ctr_xor key iv 0 data in
    Ok (ct, gcm_tag key iv ct (default 16 authTagLength)).

(** [createDecipheriv('aes-256-gcm', key, iv, {authTagLength})],
    [setAuthTag(tag)], then the cipher text through [update]/[final].
    [final] throws unless the tag is the one computed over the cipher text;
    the plain text is handed out only after that check. *)
Definition gcm_decrypt (key iv : bytes) (authTagLength : option nat)
    (tag ct : bytes) : Result bytes :=
  if negb (length key =? 32) then Throw errInvalidKeyLength
  else if (length iv =? 0) then Throw errInvalidIV
  else if negb (match authTagLength with
                | Some n => length tag =? n
                | None => bool_decide (length tag ∈ gcm_tag_lengths)
                end)
  then Throw errInvalidTagLength
  else if bytes_eqb (gcm_tag key iv ct (length tag)) tag
  then Ok (ctr_xor key iv 0 ct)
  else Throw errAuth.

Lemma length_randomBytes (n : nat) (e : Entropy) : length (randomBytes n e).1 = n.
Proof. unfold randomBytes. simpl. by rewrite length_map, length_seq. Qed.

Lemma length_pbkdf2Sync pw salt it keylen dg :
  length (pbkdf2Sync pw salt it keylen dg) = keylen.
Proof. unfold pbkdf2Sync. by rewrite length_map, length_seq. Qed.

Lemma length_gcm_tag key iv ct n : length (gcm_tag key iv ct n) = n.
Proof. unfold gcm_tag. by rewrite length_map, length_seq. Qed.

Lemma length_ctr_xor key iv pos data : length (ctr_xor key iv pos data) = length data.
Proof. revert pos; induction data as [|x r IH]; intros pos; simpl; [done|]. by rewrite IH. Qed.

(** Counter mode is an involution: the same key stream undoes itself. *)
Lemma ctr_xor_cancel key iv pos data :
  ctr_xor key iv pos (ctr_xor key iv pos data) = data.
Proof.
  revert pos; induction data as [|x r IH]; intros pos; simpl; [done|].
  by rewrite byte_xor_cancel, IH.
Qed.

(** What [gcm_encrypt] produced, [gcm_decrypt] accepts and opens, under the
    same key and IV. *)
Lemma gcm_decrypt_encrypt key iv n data ct tag :
  n ∈ gcm_tag_lengths ->
  gcm_encrypt key iv (Some n) data = Ok (ct, tag) ->
  forall o, (o = Some n \/ o = None) -> gcm_decrypt key iv o tag ct = Ok data.
Proof.
  intros Hn Henc o Ho. unfold gcm_encrypt, gcm_decrypt in *.
  destruct (negb (length key =? 32)); [done|].
  destruct (length iv =? 0); [done|].
  simpl in Henc. injection Henc as <- <-.
  rewrite length_gcm_tag.
  assert ((match o with
           | Some m => n =? m
           | None => bool_decide (n ∈ gcm_tag_lengths)
           end) = true) as ->.
  { destruct Ho as [-> | ->]; [apply Nat.eqb_refl | by apply bool_decide_eq_true]. }
  simpl.
  assert (bytes_eqb (gcm_tag key iv (ctr_xor key iv 0 data) n)
            (gcm_tag key iv (ctr_xor key iv 0 data) n) = true) as ->
    by by apply bytes_eqb_eq.
  by rewrite ctr_xor_cancel.
Qed.

(** The same with the default tag length on the encrypting side. *)
Lemma gcm_decrypt_encrypt_default key iv data ct tag :
  gcm_encrypt key iv None data = Ok (ct, tag) ->
  gcm_decrypt key iv None tag ct = Ok data.
Proof.
  intros Henc. apply (gcm_decrypt_encrypt key iv 16 data); [|exact Henc|by right].
  unfold gcm_tag_lengths. set_solver.
Qed.

(** [gcm_decrypt] is all or nothing: it throws, or it returns the whole
    counter-mode decryption, and the latter only when the tag it was given
    is the tag of the cipher text under this key and IV. *)
Lemma gcm_decrypt_all_or_nothing key iv o tag ct :
  (exists err, gcm_decrypt key iv o tag ct = Throw err) \/
  (gcm_decrypt key iv o tag ct = Ok (ctr_xor key iv 0 ct) /\
   gcm_tag key iv ct (length tag) = tag).
Proof.
  unfold gcm_decrypt.
  destruct (negb (length key =? 32)); [left; by eexists|].
  destruct (length iv =? 0); [left; by eexists|].
  destruct (negb _); [left; by eexists|].
  destruct (bytes_eqb _ tag) eqn:Htag; [|left; by eexists].
  right. split; [done|]. by apply bytes_eqb_eq.
Qed.

(** A tag of an accepted length that is not the tag of the cipher text is
    refused with the authentication error. *)
Lemma gcm_decrypt_wrong_tag key iv tag ct :
  length key = 32 -> length iv <> 0 -> length tag = 16 ->
  gcm_tag key iv ct 16 <> tag ->
  forall o, (o = Some 16 \/ o = None) -> gcm_decrypt key iv o tag ct = Throw errAuth.
Proof.
  intros Hk Hi Ht Hne o Ho.
  assert (bytes_eqb (gcm_tag key iv ct 16) tag = false) as Hcmp.
  { destruct (bytes_eqb _ tag) eqn:Heq; [|done]. by apply bytes_eqb_eq in Heq. }
  unfold gcm_decrypt. rewrite Hk, Ht.
  destruct (length iv) as [|n] eqn:Hlen; [done|].
  assert (bool_decide (16 ∈ gcm_tag_lengths) = true) as Hin by reflexivity.
  destruct Ho as [Ho | Ho]; subst o; cbn [Nat.eqb negb]; rewrite ?Hin, Hcmp; reflexivity.
Qed.

End WithPrimitives.
End NodeCrypto.

(* ================================================================== *)
(** * [src/crypto.ts] *)
(* ================================================================== *)

Module Crypto.
Import Buf Js NodeCrypto.

Definition KEY_LENGTH : nat := 32.
Definition IV_LENGTH : nat := 16.
Definition AUTH_TAG_LENGTH : nat := 16.
Definition SALT_LENGTH : nat := 32.
Definition PBKDF2_ITERATIONS : N := 100000.
Definition PBKDF2_DIGEST : Digest := SHA512.

(** [interface EncryptedData]: four hex strings. *)
Record EncryptedData : Type := mkEncrypted {
  iv : string;
  authTag : string;
  ciphertext : string;
  salt : string;
}.

Section WithPrimitives.
Context `{Primitives}.

Definition generateSalt (e : Entropy) : bytes * Entropy :=
  randomBytes SALT_LENGTH e.

Definition deriveKeyFromPassphrase (passphrase : string) (salt : bytes) : bytes :=
  pbkdf2Sync passphrase salt PBKDF2_ITERATIONS KEY_LENGTH PBKDF2_DIGEST.

(** [encrypt(data, key)]: draws the IV, returns the hex record with an
    empty [salt]. *)
Definition encrypt (data key : bytes) (e : Entropy) : Result EncryptedData * Entropy :=
  let '(ivb, e') := randomBytes IV_LENGTH e in
  (r <-! gcm_encrypt key ivb (Some AUTH_TAG_LENGTH) data;
   Ok {| iv := toHex ivb;
         authTag := toHex r.2;
         ciphertext := toHex r.1;
         salt := "" |},
   e').

(** [decrypt(encrypted, key)] *)
Definition decrypt (encrypted : EncryptedData) (key : bytes) : Result bytes :=
  let ivb := fromHex (iv encrypted) in
  let tag := fromHex (authTag encrypted) in
  let ct := fromHex (ciphertext encrypted) in
  gcm_decrypt key ivb (Some AUTH_TAG_LENGTH) tag ct.

(** [encryptWithPassphrase(data, passphrase)] *)
Definition encryptWithPassphrase (data : bytes) (passphrase : string) (e : Entropy)
  : Result EncryptedData * Entropy :=
  let '(saltb, e1) := generateSalt e in
  let key := deriveKeyFromPassphrase passphrase saltb in
  let '(r, e2) := encrypt data key e1 in
  (encrypted <-! r;
   Ok {| iv := iv encrypted;
         authTag := authTag encrypted;
         ciphertext := ciphertext encrypted;
         salt := toHex saltb |},
   e2).

(** [decryptWithPassphrase(encrypted, passphrase)] *)
Definition decryptWithPassphrase (encrypted : EncryptedData) (passphrase : string)
  : Result bytes :=
  let saltb := fromHex (salt encrypted) in
  let key := deriveKeyFromPassphrase passphrase saltb in
  decrypt encrypted key.

Lemma length_deriveKey (passphrase : string) (s : bytes) :
  length (deriveKeyFromPassphrase passphrase s) = 32.
Proof. apply length_pbkdf2Sync. Qed.

(** Encryption under a derived key never throws: the key has 32 bytes and
    the IV 16. *)
Lemma encrypt_derived_ok (data : bytes) (passphrase : string) (s : bytes) (e : Entropy) :
  let key := deriveKeyFromPassphrase passphrase s in
  let ivb := (randomBytes IV_LENGTH e).1 in
  let ct := ctr_xor key ivb 0 data in
  (encrypt data key e).1 =
    Ok {| iv := toHex ivb;
          authTag := toHex (gcm_tag key ivb ct AUTH_TAG_LENGTH);
          ciphertext := toHex ct;
          salt := "" |}.
Proof.
  cbv zeta. unfold encrypt.
  destruct (randomBytes IV_LENGTH e) as [ivb e'] eqn:Hiv.
  assert (length ivb = 16) as Hlen.
  { change ivb with (ivb, e').1. rewrite <- Hiv. apply length_randomBytes. }
  cbn [fst]. unfold gcm_encrypt.
  rewrite length_deriveKey, Hlen. reflexivity.
Qed.

(** C1. For every plain text and passphrase, and whatever salt and IV the
    random source hands out, [encryptWithPassphrase] returns a record, and
    [decryptWithPassphrase] with the same passphrase returns exactly the
    plain text from it. *)
Theorem decrypt_encrypt_roundtrip (data : bytes) (passphrase : string) (e : Entropy) :
  exists encrypted,
    (encryptWithPassphrase data passphrase e).1 = Ok encrypted /\
    decryptWithPassphrase encrypted passphrase = Ok data.
Proof.
  unfold encryptWithPassphrase, generateSalt.
  destruct (randomBytes SALT_LENGTH e) as [saltb e1] eqn:Hsalt.
  pose proof (encrypt_derived_ok data passphrase saltb e1) as Henc.
  cbv zeta in Henc.
  destruct (encrypt data (deriveKeyFromPassphrase passphrase saltb) e1) as [r e2].
  cbn [fst] in Henc |- *. subst r. cbn [bind].
  eexists; split; [reflexivity|].
  unfold decryptWithPassphrase, decrypt. cbn [salt iv authTag ciphertext].
  rewrite !fromHex_toHex.
  eapply (gcm_decrypt_encrypt _ _ AUTH_TAG_LENGTH); [| |by left].
  - unfold AUTH_TAG_LENGTH, gcm_tag_lengths. set_solver.
  - unfold gcm_encrypt. rewrite length_deriveKey, length_randomBytes. reflexivity.
Qed.

(** What encryption under a passphrase returns, spelled out. *)
Lemma encryptWithPassphrase_ok (data : bytes) (passphrase : string) (e : Entropy) :
  let saltb := (randomBytes SALT_LENGTH e).1 in
  let key := deriveKeyFromPassphrase passphrase saltb in
  let ivb := (randomBytes IV_LENGTH (randomBytes SALT_LENGTH e).2).1 in
  let ct := ctr_xor key ivb 0 data in
  (encryptWithPassphrase data passphrase e).1 =
    Ok {| iv := toHex ivb;
          authTag := toHex (gcm_tag key ivb ct AUTH_TAG_LENGTH);
          ciphertext := toHex ct;
          salt := toHex saltb |}.
Proof.
  cbv zeta. unfold encryptWithPassphrase, generateSalt.
  destruct (randomBytes SALT_LENGTH e) as [saltb e1] eqn:Hsalt. cbn [fst snd].
  pose proof (encrypt_derived_ok data passphrase saltb e1) as Henc.
  cbv zeta in Henc.
  destruct (encrypt data (deriveKeyFromPassphrase passphrase saltb) e1) as [r e2].
  cbn [fst] in Henc |- *. by subst r.
Qed.


(** X2. A record whose tag was replaced by any other 16 bytes is refused
    with the authentication error, under the passphrase it was made with. *)
Theorem decrypt_altered_tag_rejected (data : bytes) (passphrase : string)
    (e : Entropy) (encrypted : EncryptedData) (tag' : bytes) :
  (encryptWithPassphrase data passphrase e).1 = Ok encrypted ->
  length tag' = 16 ->
  tag' <> fromHex (authTag encrypted) ->
  decryptWithPassphrase
    {| iv := iv encrypted; authTag := toHex tag';
       ciphertext := ciphertext encrypted; salt := salt encrypted |} passphrase
    = Throw errAuth.
Proof.
  rewrite encryptWithPassphrase_ok. intros <-%Ok_inj Hlen Hne.
  cbn [authTag] in Hne. rewrite fromHex_toHex in Hne.
  unfold decryptWithPassphrase, decrypt. cbn [salt iv authTag ciphertext].
  rewrite !fromHex_toHex.
  apply gcm_decrypt_wrong_tag; [apply length_deriveKey| |exact Hlen| |by left].
  - rewrite length_randomBytes. discriminate.
  - intros Heq. apply Hne. symmetry. exact Heq.
Qed.

(** X3. Under another passphrase the record is refused with the
    authentication error whenever the tag that the other key gives the
    cipher text differs from the stored one. *)
Theorem decrypt_other_passphrase_rejected (data : bytes) (passphrase other : string)
    (e : Entropy) (encrypted : EncryptedData) :
  (encryptWithPassphrase data passphrase e).1 = Ok encrypted ->
  gcm_tag (deriveKeyFromPassphrase other (fromHex (salt encrypted)))
          (fromHex (iv encrypted)) (fromHex (ciphertext encrypted)) 16
    <> fromHex (authTag encrypted) ->
  decryptWithPassphrase encrypted other = Throw errAuth.
Proof.
  rewrite encryptWithPassphrase_ok. intros <-%Ok_inj.
  cbn [salt iv authTag ciphertext]. rewrite !fromHex_toHex. intros Hne.
  unfold decryptWithPassphrase, decrypt. cbn [salt iv authTag ciphertext].
  rewrite !fromHex_toHex.
  apply gcm_decrypt_wrong_tag; [apply length_deriveKey| | |exact Hne|by left].
  - rewrite length_randomBytes. discriminate.
  - apply length_gcm_tag.
Qed.

End WithPrimitives.
End Crypto.

(* ================================================================== *)
(** * Paths and directories ([src/config.ts]) *)
(* ================================================================== *)

Module Config.

(** [path.join(a, b)] on the relative paths of the data directory. *)
Definition join (a b : string) : string := a +:+ "/" +:+ b.

Definition DATA_DIR : string := "data".
Definition PROFILES_DIR : string := join DATA_DIR "profiles".
Definition ENCRYPTED_DIR : string := join DATA_DIR "encrypted".

End Config.

(* ================================================================== *)
(** * The profile vault ([profiles/store.ts]) *)
(* ================================================================== *)

Module ProfileStore.
Import Buf Js NodeCrypto Config.

Definition AUTH_TAG_LENGTH : nat := 16.
Definition IV_LENGTH : nat := 12.
Definition SALT_LENGTH : nat := 16.
Definition KEY_LENGTH : nat := 32.

(** A directory tree: relative path to file contents. *)
Abbreviation Tree := (gmap string bytes).

(** The archiver (adm-zip) is the platform's: [zipFolder] is
    [addLocalFolder] with [writeZip], [unzip] is reading an archive back,
    which fails on bytes that are no archive. *)
Class Archiver : Type := {
  zipFolder : Tree -> bytes;
  unzip : bytes -> option Tree;
}.

(** The state the vault works on: the process-wide passphrase, the regular
    files and the profile directories, both by path. Disk failures are not
    part of the model. *)
Record World : Type := mkWorld {
  globalPassphrase : option string;
  files : gmap string bytes;
  dirs : gmap string Tree;
}.

Definition setGlobalPassphrase (pass : string) (w : World) : World :=
  {| globalPassphrase := Some pass; files := files w; dirs := dirs w |}.

Definition with_files (w : World) (f : gmap string bytes) : World :=
  {| globalPassphrase := globalPassphrase w; files := f; dirs := dirs w |}.

Definition with_dirs (w : World) (d : gmap string Tree) : World :=
  {| globalPassphrase := globalPassphrase w; files := files w; dirs := d |}.

Definition errPassphraseNotSet : JsError :=
  mkError "Error" "Global passphrase not set. Cannot encrypt/decrypt.".

Definition profilePathOf (platform id : string) : string :=
  join (join (join PROFILES_DIR platform) id) "userDataDir".
Definition zipPathOf (platform id : string) : string :=
  join (join ENCRYPTED_DIR platform) (id +:+ ".zip").
Definition encPathOf (platform id : string) : string :=
  join (join ENCRYPTED_DIR platform) (id +:+ ".zip.enc").
Definition tempZipPathOf (platform accountId : string) : string :=
  join (join ENCRYPTED_DIR platform) (accountId +:+ "_temp.zip").

(** [Buffer.concat([salt, iv, tag, encrypted])] *)
Definition finalBuffer (salt iv tag encrypted : bytes) : bytes :=
  salt ++ iv ++ tag ++ encrypted.

(** The four slices [restoreProfileFromDisk] takes of the file:
    salt, IV, tag, cipher text. *)
Definition parseBackup (fileData : bytes) : bytes * bytes * bytes * bytes :=
  (subarray fileData 0 SALT_LENGTH,
   subarray fileData SALT_LENGTH (SALT_LENGTH + IV_LENGTH),
   subarray fileData (SALT_LENGTH + IV_LENGTH) (SALT_LENGTH + IV_LENGTH + AUTH_TAG_LENGTH),
   subarray_from fileData (SALT_LENGTH + IV_LENGTH + AUTH_TAG_LENGTH)).

Section WithPlatform.
Context `{Primitives} `{Archiver}.

(** [getKey(salt)]: throws when the passphrase is [null] or empty. *)
Definition getKey (w : World) (salt : bytes) : Result bytes :=
  match globalPassphrase w with
  | Some pass =>
      if Str.is_empty pass then Throw errPassphraseNotSet
      else Ok (pbkdf2Sync pass salt 100000 KEY_LENGTH SHA256)
  | None => Throw errPassphraseNotSet
  end.

(** [saveProfileToDisk(platform, accountId)]. The first, streamed write of
    salt, IV and cipher text to the backup path is replaced by the final
    [writeFile]; the plain archive is removed only when nothing threw. *)
Definition saveProfileToDisk (platform accountId : string) (w : World) (e : Entropy)
  : Result string * World * Entropy :=
  let id := Str.normalizeId accountId in
  let profilePath := profilePathOf platform id in
  let zipPath := zipPathOf platform id in
  let encPath := encPathOf platform id in
  match dirs w !! profilePath with
  | None =>
      (Throw (mkError "Error" ("Profile not found at " +:+ profilePath)), w, e)
  | Some tree =>
      let w1 := with_files w (<[zipPath := zipFolder tree]> (files w)) in
      let '(salt, e1) := randomBytes SALT_LENGTH e in
      let '(iv, e2) := randomBytes IV_LENGTH e1 in
      match getKey w1 salt with
      | Throw err => (Throw err, w1, e2)
      | Ok key =>
          match gcm_encrypt key iv None (zipFolder tree) with
          | Throw err => (Throw err, w1, e2)
          | Ok (streamed, _) =>
              let w2 := with_files w1 (<[encPath := salt ++ iv ++ streamed]> (files w1)) in
              match files w2 !! zipPath with
              | None => (Throw (mkError "Error" "ENOENT"), w2, e2)
              | Some zipBuffer =>
                  match gcm_encrypt key iv None zipBuffer with
                  | Throw err => (Throw err, w2, e2)
                  | Ok (encrypted, tag) =>
                      let w3 := with_files w2
                        (<[encPath := finalBuffer salt iv tag encrypted]> (files w2)) in
                      let w4 := with_files w3 (delete zipPath (files w3)) in
                      (Ok encPath, w4, e2)
                  end
              end
          end
      end
  end.

(** [restoreProfileFromDisk(platform, accountId)] *)
Definition restoreProfileFromDisk (platform accountId : string) (w : World)
  : Result string * World :=
  let id := Str.normalizeId accountId in
  let encPath := encPathOf platform id in
  let profilePath := profilePathOf platform id in
  match files w !! encPath with
  | None =>
      (Throw (mkError "Error" ("Encrypted profile not found at " +:+ encPath)), w)
  | Some fileData =>
      let '(salt, iv, tag, encryptedText) := parseBackup fileData in
      match (key <-! getKey w salt; gcm_decrypt key iv None tag encryptedText) with
      | Throw err => (Throw err, w)
      | Ok decrypted =>
          let tempZipPath := tempZipPathOf platform accountId in
          let w1 := with_files w (<[tempZipPath := decrypted]> (files w)) in
          let w2 := with_dirs w1 (<[profilePath := ∅]> (dirs w1)) in
          match unzip decrypted with
          | None => (Throw (mkError "Error" "Invalid or unsupported zip format"), w2)
          | Some tree =>
              let w3 := with_dirs w2 (<[profilePath := tree]> (dirs w2)) in
              let w4 := with_files w3 (delete tempZipPath (files w3)) in
              (Ok profilePath, w4)
          end
      end
  end.

Lemma append_inv_head (a b c : string) : a +:+ b = a +:+ c -> b = c.
Proof. induction a as [|ch a IH]; simpl; [done|]. intros [= Heq]. by apply IH. Qed.

Lemma zipPath_ne_encPath (platform id : string) :
  zipPathOf platform id <> encPathOf platform id.
Proof.
  unfold zipPathOf, encPathOf, join. intros Heq.
  repeat apply append_inv_head in Heq. discriminate Heq.
Qed.

(** The slices of a buffer laid out as salt, IV, tag, cipher text. *)
Lemma finalBuffer_slices (salt iv tag encrypted : bytes) :
  length salt = 16 -> length iv = 12 -> length tag = 16 ->
  subarray (finalBuffer salt iv tag encrypted) 0 16 = salt /\
  subarray (finalBuffer salt iv tag encrypted) 16 28 = iv /\
  subarray (finalBuffer salt iv tag encrypted) 28 44 = tag /\
  subarray_from (finalBuffer salt iv tag encrypted) 44 = encrypted /\
  subarray (finalBuffer salt iv tag encrypted) 0 28 = salt ++ iv.
Proof.
  intros Hs Hi Ht. unfold finalBuffer, subarray, subarray_from.
  assert (length (salt ++ iv) = 28) as Hsi by (rewrite length_app; lia).
  assert (length ((salt ++ iv) ++ tag) = 44) as Hsit by (rewrite length_app; lia).
  change (16 - 0) with 16. change (28 - 16) with 12. change (44 - 28) with 16.
  change (28 - 0) with 28. rewrite !drop_0.
  repeat split.
  - by apply take_exact.
  - rewrite (drop_exact salt _ 16 Hs). by apply take_exact.
  - rewrite (assoc (++) salt iv), (drop_exact (salt ++ iv) _ 28 Hsi).
    by apply take_exact.
  - rewrite (assoc (++) salt iv), (assoc (++) (salt ++ iv) tag).
    by apply drop_exact.
  - rewrite (assoc (++) salt iv). by apply take_exact.
Qed.

Lemma parseBackup_finalBuffer (salt iv tag encrypted : bytes) :
  length salt = 16 -> length iv = 12 -> length tag = 16 ->
  parseBackup (finalBuffer salt iv tag encrypted) = (salt, iv, tag, encrypted).
Proof.
  intros Hs Hi Ht.
  destruct (finalBuffer_slices salt iv tag encrypted Hs Hi Ht) as (H1 & H2 & H3 & H4 & _).
  unfold parseBackup.
  change SALT_LENGTH with 16. change (16 + IV_LENGTH) with 28.
  change (28 + AUTH_TAG_LENGTH) with 44.
  by rewrite H1, H2, H3, H4.
Qed.

Lemma gcm_encrypt_tag_length key iv o data ct tag :
  gcm_encrypt key iv o data = Ok (ct, tag) -> length tag = default 16 o.
Proof.
  unfold gcm_encrypt. destruct (negb _); [done|]. destruct (_ =? 0); [done|].
  intros [= <- <-]. apply length_gcm_tag.
Qed.


(** What a successful [saveProfileToDisk] did. *)
Lemma saveProfileToDisk_ok_inv (platform accountId : string) (w w' : World)
    (e e' : Entropy) (path : string) :
  saveProfileToDisk platform accountId w e = (Ok path, w', e') ->
  let id := Str.normalizeId accountId in
  exists tree salt iv key encrypted tag,
    dirs w !! profilePathOf platform id = Some tree /\
    getKey w salt = Ok key /\
    gcm_encrypt key iv None (zipFolder tree) = Ok (encrypted, tag) /\
    length salt = 16 /\ length iv = 12 /\
    path = encPathOf platform id /\
    files w' !! path = Some (finalBuffer salt iv tag encrypted) /\
    globalPassphrase w' = globalPassphrase w /\
    dirs w' = dirs w.
Proof.
  cbv zeta. unfold saveProfileToDisk.
  destruct (dirs w !! _) as [tree|] eqn:Hdir; [|done].
  destruct (randomBytes SALT_LENGTH e) as [salt e1] eqn:Hsalt.
  destruct (randomBytes IV_LENGTH e1) as [iv e2] eqn:Hiv.
  destruct (getKey _ salt) as [key|] eqn:Hkey; [|done].
  destruct (gcm_encrypt key iv None (zipFolder tree)) as [[streamed t0]|] eqn:Hstream;
    [|done].
  cbn [files with_files].
  rewrite lookup_insert_ne by (intros Heq; by apply (zipPath_ne_encPath platform
    (Str.normalizeId accountId))).
  rewrite lookup_insert_eq. rewrite Hstream.
  intros [= <- <- <-].
  exists tree, salt, iv, key, streamed, t0.
  split; [done|]. split; [exact Hkey|]. split; [done|].
  split. { change salt with (salt, e1).1. rewrite <- Hsalt. apply length_randomBytes. }
  split. { change iv with (iv, e2).1. rewrite <- Hiv. apply length_randomBytes. }
  split; [done|]. split; [|done].
  cbn [files with_files].
  rewrite lookup_delete_ne by apply zipPath_ne_encPath.
  apply lookup_insert_eq.
Qed.

(** X4. A profile that was saved is restored as it was: when the archiver
    reads back the archive it wrote of the tree, and the passphrase is left
    as it is,
    [restoreProfileFromDisk] after [saveProfileToDisk] returns the profile
    path and puts the saved tree there. *)
Theorem restore_after_save (platform accountId : string) (w w1 : World)
    (e e1 : Entropy) (path : string) (tree : Tree) :
  unzip (zipFolder tree) = Some tree ->
  dirs w !! profilePathOf platform (Str.normalizeId accountId) = Some tree ->
  saveProfileToDisk platform accountId w e = (Ok path, w1, e1) ->
  exists w2,
    restoreProfileFromDisk platform accountId w1
      = (Ok (profilePathOf platform (Str.normalizeId accountId)), w2) /\
    dirs w2 !! profilePathOf platform (Str.normalizeId accountId) = Some tree.
Proof.
  intros Hzip Hdir Hsave.
  destruct (saveProfileToDisk_ok_inv _ _ _ _ _ _ _ Hsave)
    as (tree' & salt & iv & key & encrypted & tag & Hdir' & Hkey & Henc & Hs & Hi
        & -> & Hfile & Hpass & Hdirs).
  rewrite Hdir in Hdir'. injection Hdir' as <-.
  unfold restoreProfileFromDisk. rewrite Hfile.
  rewrite parseBackup_finalBuffer;
    [|exact Hs|exact Hi|apply (gcm_encrypt_tag_length _ _ _ _ _ _ Henc)].
  assert (getKey w1 salt = Ok key) as ->.
  { unfold getKey in *. by rewrite Hpass. }
  cbn [bind]. rewrite (gcm_decrypt_encrypt_default _ _ _ _ _ Henc).
  rewrite Hzip. eexists. split; [reflexivity|].
  cbn [dirs with_files with_dirs]. apply lookup_insert_eq.
Qed.

(** X5. A backup whose tag bytes were replaced by any other 16 bytes is
    refused with the authentication error, and the restore leaves files and
    directories as they were. *)
Theorem restore_altered_tag_rejected (platform accountId : string) (w w1 : World)
    (e e1 : Entropy) (path : string) (fileData tag' : bytes) :
  saveProfileToDisk platform accountId w e = (Ok path, w1, e1) ->
  files w1 !! path = Some fileData ->
  length tag' = 16 ->
  tag' <> subarray fileData 28 44 ->
  let tampered :=
    subarray fileData 0 28 ++ tag' ++ subarray_from fileData 44 in
  let w1' := with_files w1 (<[path := tampered]> (files w1)) in
  restoreProfileFromDisk platform accountId w1' = (Throw errAuth, w1').
Proof.
  intros Hsave Hfile Hlen Hne. cbv zeta.
  destruct (saveProfileToDisk_ok_inv _ _ _ _ _ _ _ Hsave)
    as (tree & salt & iv & key & encrypted & tag & Hdir & Hkey & Henc & Hs & Hi
        & -> & Hfile' & Hpass & Hdirs).
  rewrite Hfile in Hfile'. injection Hfile' as ->.
  pose proof (gcm_encrypt_tag_length _ _ _ _ _ _ Henc) as Ht. cbn [default] in Ht.
  destruct (finalBuffer_slices salt iv tag encrypted Hs Hi Ht)
    as (_ & _ & H3 & H4 & Hhead).
  rewrite H3 in Hne. rewrite H4, Hhead, <- (assoc (++) salt iv).
  change (salt ++ iv ++ tag' ++ encrypted) with (finalBuffer salt iv tag' encrypted).
  unfold restoreProfileFromDisk. cbn [files with_files].
  rewrite lookup_insert_eq.
  rewrite parseBackup_finalBuffer; [|exact Hs|exact Hi|exact Hlen].
  assert (getKey (with_files w1 (<[encPathOf platform (Str.normalizeId accountId)
            := finalBuffer salt iv tag' encrypted]> (files w1))) salt = Ok key) as ->.
  { unfold getKey in *. cbn [globalPassphrase with_files]. by rewrite Hpass. }
  cbn [bind].
  assert (length key = 32 /\ length iv <> 0 /\ gcm_tag key iv encrypted 16 = tag)
    as (Hk & Hiv & Htag).
  { unfold gcm_encrypt in Henc.
    destruct (length key =? 32) eqn:Hk; [|done]. cbn [negb] in Henc.
    destruct (length iv =? 0) eqn:Hiv; [done|].
    injection Henc as Hct Htag. apply Nat.eqb_eq in Hk. apply Nat.eqb_neq in Hiv.
    split; [done|]. split; [done|]. by rewrite <- Hct. }
  rewrite (gcm_decrypt_wrong_tag key iv tag' encrypted Hk Hiv Hlen); [done| |by right].
  rewrite Htag. intros Heq. apply Hne. by symmetry.
Qed.

End WithPlatform.
End ProfileStore.

(* ================================================================== *)
(** * [src/cookies.ts] *)
(* ================================================================== *)

Module Cookies.
Import Js Config.

Definition COOKIES_DIR : string := join DATA_DIR "cookies".

(** [getCookieFilePath(accountId, platform)] *)
Definition getCookieFilePath (accountId platform : string) : string :=
  join COOKIES_DIR (Str.normalizeId accountId +:+ "_" +:+ platform +:+ ".json").

Definition errNoDomain : JsError :=
  mkError "TypeError" "Cannot read properties of undefined (reading 'includes')".

(** The body of the [map] callback of [adaptCookiesForShopsy]: copy the
    cookie, delete [hostOnly] and [session], and overwrite [domain] when the
    cookie's domain contains ['flipkart.com']. Reading [includes] off a
    domain that is no string throws. *)
Definition adaptCookie (c : obj) : Result obj :=
  let newCookie := delete "session" (delete "hostOnly" c) in
  match c !! "domain" with
  | Some (JStr d) =>
      if Str.includes d "flipkart.com"
      then Ok (<["domain" := JStr ".shopsy.in"]> newCookie)
      else Ok newCookie
  | _ => Throw errNoDomain
  end.

(** [adaptCookiesForShopsy(cookies)]: [cookies.map(...)], which stops at the
    first callback that throws. *)
Fixpoint adaptCookiesForShopsy (cookies : list obj) : Result (list obj) :=
  match cookies with
  | [] => Ok []
  | c :: rest =>
      c' <-! adaptCookie c;
      rest' <-! adaptCookiesForShopsy rest;
      Ok (c' :: rest')
  end.

(** ** The claim as the specification words it *)

(** Suffix match of a cookie domain against the source site's domain. *)
Definition suffixMatches (c : obj) : bool :=
  match c !! "domain" with
  | Some (JStr d) => Str.endsWith d "flipkart.com"
  | _ => false
  end.

(** "Rewrites the domain exactly when the domain suffix-matches the source
    site's domain, strips the session and host flags from those cookies, and
    returns every cookie outside that domain unchanged." *)
Definition adapted_as_specified (c c' : obj) : Prop :=
  if suffixMatches c
  then c' = <["domain" := JStr ".shopsy.in"]> (delete "session" (delete "hostOnly" c))
  else c' = c.

Definition adapt_spec_claim : Prop :=
  forall cookies out,
    adaptCookiesForShopsy cookies = Ok out ->
    Forall2 adapted_as_specified cookies out.

(** ** What the code does *)

(** The relation between a cookie and its adapted copy. *)
Record adapted (c c' : obj) : Prop := {
  adapted_hostOnly : c' !! "hostOnly" = None;
  adapted_session : c' !! "session" = None;
  adapted_domain :
    exists d, c !! "domain" = Some (JStr d) /\
      c' !! "domain" =
        Some (JStr (if Str.includes d "flipkart.com" then ".shopsy.in" else d));
  adapted_rest :
    forall k, k <> "hostOnly" -> k <> "session" -> k <> "domain" ->
      c' !! k = c !! k;
}.

Lemma adaptCookie_adapted (c c' : obj) : adaptCookie c = Ok c' -> adapted c c'.
Proof.
  unfold adaptCookie.
  destruct (c !! "domain") as [[| | | |d|]|] eqn:Hd; try done.
  destruct (Str.includes d "flipkart.com") eqn:Hinc; intros [= <-].
  - split.
    + rewrite lookup_insert_ne by done. rewrite lookup_delete_ne by done.
      apply lookup_delete_eq.
    + rewrite lookup_insert_ne by done. apply lookup_delete_eq.
    + exists d. split; [done|]. rewrite Hinc. apply lookup_insert_eq.
    + intros k H1 H2 H3. rewrite lookup_insert_ne by done.
      by rewrite !lookup_delete_ne.
  - split.
    + rewrite lookup_delete_ne by done. apply lookup_delete_eq.
    + apply lookup_delete_eq.
    + exists d. split; [done|]. rewrite Hinc. by rewrite !lookup_delete_ne.
    + intros k H1 H2 H3. by rewrite !lookup_delete_ne.
Qed.

Lemma prefix_refl (s : string) : String.prefix s s = true.
Proof.
  induction s as [|c s IH]; simpl; [done|].
  destruct (Ascii.ascii_dec c c); [done|congruence].
Qed.

(** A domain that ends with the source domain contains it. *)
Lemma endsWith_includes (s suf : string) :
  Str.endsWith s suf = true -> Str.includes s suf = true.
Proof.
  induction s as [|c s IH]; cbn [Str.endsWith Str.includes].
  - rewrite orb_false_r. intros <-%String.eqb_eq. reflexivity.
  - intros [->%String.eqb_eq | Hs]%orb_prop.
    + by rewrite prefix_refl.
    + rewrite (IH Hs). apply orb_true_r.
Qed.

(** C5, as amended. Whenever [adaptCookiesForShopsy] returns, its result
    lists one adapted copy per input cookie, in order: without [hostOnly]
    and [session] (for every cookie, also outside the source domain), with
    the domain set to [".shopsy.in"] exactly when the input domain contains
    ["flipkart.com"] and kept otherwise, and with every other attribute as
    in the input. *)
Theorem adaptCookiesForShopsy_adapted (cookies out : list obj) :
  adaptCookiesForShopsy cookies = Ok out ->
  Forall2 adapted cookies out.
Proof.
  revert out. induction cookies as [|c rest IH]; intros out; simpl.
  - intros [= <-]. constructor.
  - destruct (adaptCookie c) as [c'|] eqn:Hc; [|done]. simpl.
    destruct (adaptCookiesForShopsy rest) as [rest'|]; [|done]. simpl.
    intros [= <-]. constructor; [by apply adaptCookie_adapted | by apply IH].
Qed.

(** It returns for every list of cookies that all carry a string domain. *)
Lemma adaptCookiesForShopsy_total (cookies : list obj) :
  Forall (fun c => exists d, c !! "domain" = Some (JStr d)) cookies ->
  exists out, adaptCookiesForShopsy cookies = Ok out.
Proof.
  induction 1 as [|c rest [d Hd] _ [out' IH]]; simpl; [by eexists|].
  unfold adaptCookie. rewrite Hd, IH.
  destruct (Str.includes d "flipkart.com"); simpl; by eexists.
Qed.

End Cookies.

(* ================================================================== *)
(** * [src/fingerprint.ts] *)
(* ================================================================== *)

Module Fingerprint.

Inductive Platform : Type := flipkart | shopsy.

Definition platformName (p : Platform) : string :=
  match p with flipkart => "flipkart" | shopsy => "shopsy" end.

Record Viewport : Type := mkViewport { width : nat; height : nat }.

(** An entry of Playwright's [devices] table, as far as the code reads it. *)
Record DeviceDescriptor : Type := mkDevice {
  dev_userAgent : string;
  dev_viewport : Viewport;
  dev_deviceScaleFactor : QArith_base.Q;
  dev_hasTouch : bool;
  dev_isMobile : bool;
}.

(** [interface Fingerprint] *)
Record Fingerprint : Type := mkFingerprint {
  userAgent : string;
  viewport : Viewport;
  deviceScaleFactor : QArith_base.Q;
  locale : string;
  timezoneId : string;
  hasTouch : bool;
  isMobile : bool;
  javaScriptEnabled : bool;
}.

Definition DESKTOP_USER_AGENTS : list string := [
  "Mozilla/5.0 (Windows NT 10.0; Win64; x64) AppleWebKit/537.36 (KHTML, like Gecko) Chrome/120.0.0.0 Safari/537.36";
  "Mozilla/5.0 (Macintosh; Intel Mac OS X 10_15_7) AppleWebKit/537.36 (KHTML, like Gecko) Chrome/120.0.0.0 Safari/537.36";
  "Mozilla/5.0 (Windows NT 10.0; Win64; x64; rv:109.0) Gecko/20100101 Firefox/115.0"
].

(** The four entries of Playwright's [devices] that [MOBILE_DEVICES] lists;
    their contents are Playwright's. *)
Class Devices : Type := {
  Pixel_5 : DeviceDescriptor;
  Pixel_7 : DeviceDescriptor;
  Samsung_Galaxy_S20_Ultra : DeviceDescriptor;
  iPhone_12 : DeviceDescriptor;
}.

Section WithDevices.
Context `{Devices}.

Definition MOBILE_DEVICES : list DeviceDescriptor :=
  [Pixel_5; Pixel_7; Samsung_Galaxy_S20_Ultra; iPhone_12].

(** The size of the pool the seed selects from. *)
Definition poolSize (platform : Platform) : nat :=
  match platform with
  | shopsy => length MOBILE_DEVICES
  | flipkart => length DESKTOP_USER_AGENTS
  end.

(** [generateFingerprint(platform, seed)]. Both indices are below the length
    of their list ([index_in_pool]), so the defaults of [nth] never show. *)
Definition generateFingerprint (platform : Platform) (seed : string) : Fingerprint :=
  let sum := Str.charCodeSum seed in
  match platform with
  | shopsy =>
      let deviceIndex := sum mod length MOBILE_DEVICES in
      let device := nth deviceIndex MOBILE_DEVICES Pixel_5 in
      {| userAgent := dev_userAgent device;
         viewport := dev_viewport device;
         deviceScaleFactor := dev_deviceScaleFactor device;
         locale := "en-IN";
         timezoneId := "Asia/Kolkata";
         hasTouch := dev_hasTouch device;
         isMobile := dev_isMobile device;
         javaScriptEnabled := true |}
  | flipkart =>
      let uaIndex := sum mod length DESKTOP_USER_AGENTS in
      {| userAgent := nth uaIndex DESKTOP_USER_AGENTS "";
         viewport := {| width := 1920; height := 1080 |};
         deviceScaleFactor := QArith_base.Qmake 1 1;
         locale := "en-IN";
         timezoneId := "Asia/Kolkata";
         hasTouch := false;
         isMobile := false;
         javaScriptEnabled := true |}
  end.

Lemma index_in_pool (platform : Platform) (seed : string) :
  Str.charCodeSum seed mod poolSize platform < poolSize platform.
Proof. apply Nat.mod_upper_bound. by destruct platform. Qed.


End WithDevices.
End Fingerprint.

(* ================================================================== *)
(** * [src/accounts.ts] *)
(* ================================================================== *)

Module Accounts.
Import Js.

Inductive AccountStatus : Type :=
  | New | Healthy | NeedsRefresh | OTPRequired | Locked | Error.

Definition statusName (s : AccountStatus) : string :=
  match s with
  | New => "New" | Healthy => "Healthy" | NeedsRefresh => "NeedsRefresh"
  | OTPRequired => "OTPRequired" | Locked => "Locked" | Error => "Error"
  end.

(** An account object, stored or partial. The [id] is a string by the types
    of every function below (stored records and the argument of
    [upsertAccount] alike); [props] holds the other properties that are
    present: [platform], [loginType], [identifier], [status], [assignedTo],
    [lastLoginAt], [lastValidateAt], [errorCode], [createdAt], [updatedAt],
    [emailConfig]. A partial account is one with few properties. *)
Record Account : Type := mkAccount { id : string; props : obj }.

(** [{...a, ...b}] on the properties: those of [b] win. *)
Definition spread (a b : obj) : obj := b ∪ a.

(** What [fs.readJSON] finds in a file that parses: the legacy bare array,
    or an object whose [accounts] may be missing. *)
Inductive RawJson : Type :=
  | RawArray (l : list Account)
  | RawObject (accounts : option (list Account)).

Inductive FileContent : Type :=
  | Unparseable
  | Parsed (raw : RawJson).

(** The store: the accounts file and its temporary sibling, whether writing
    a file and renaming one succeed, whether the replication call throws,
    the settled tail of the write queue, and what was printed and pushed. *)
Record Store : Type := mkStore {
  file : option FileContent;
  tmpFile : option FileContent;
  canWrite : bool;
  canMove : bool;
  pushThrows : bool;
  saveQueue : Result unit;
  pushes : nat;
  console : list string;
}.

Definition set_file (st : Store) (f : option FileContent) : Store :=
  mkStore f (tmpFile st) (canWrite st) (canMove st) (pushThrows st)
          (saveQueue st) (pushes st) (console st).
Definition set_tmpFile (st : Store) (f : option FileContent) : Store :=
  mkStore (file st) f (canWrite st) (canMove st) (pushThrows st)
          (saveQueue st) (pushes st) (console st).
Definition set_saveQueue (st : Store) (q : Result unit) : Store :=
  mkStore (file st) (tmpFile st) (canWrite st) (canMove st) (pushThrows st)
          q (pushes st) (console st).
Definition add_push (st : Store) : Store :=
  mkStore (file st) (tmpFile st) (canWrite st) (canMove st) (pushThrows st)
          (saveQueue st) (S (pushes st)) (console st).
Definition console_error (line : string) (st : Store) : Store :=
  mkStore (file st) (tmpFile st) (canWrite st) (canMove st) (pushThrows st)
          (saveQueue st) (pushes st) (console st ++ [line]).

(** An asynchronous step: it runs on the store and its promise settles. *)
Definition Async (A : Type) : Type := Store -> Result A * Store.

(** [p.then(f)] *)
Definition then_ {A B} (p : Async A) (f : A -> Async B) : Async B :=
  fun st =>
    match p st with
    | (Ok a, st') => f a st'
    | (Throw e, st') => (Throw e, st')
    end.

(** [p.catch(h)] *)
Definition catch_ {A} (p : Async A) (h : JsError -> Async A) : Async A :=
  fun st =>
    match p st with
    | (Ok a, st') => (Ok a, st')
    | (Throw e, st') => h e st'
    end.

(** [p.then(() => {}, () => {})] *)
Definition settle_ {A} (p : Async A) : Async unit :=
  fun st => (Ok tt, (p st).2).

Definition resolved {A} (a : A) : Async A := fun st => (Ok a, st).
Definition rejected {A} (e : JsError) : Async A := fun st => (Throw e, st).

(** The promise held in the [saveQueue] variable. *)
Definition queueTail : Async unit := fun st => (saveQueue st, st).

Definition errWrite : JsError := mkError "Error" "EACCES: permission denied, open".
Definition errMove : JsError := mkError "Error" "EPERM: operation not permitted, rename".
Definition errParse : JsError := mkError "SyntaxError" "Unexpected token in JSON".

(** What [JSON.stringify] keeps of a value: properties that are [undefined]
    are left out, at every depth. *)
Fixpoint jsonValue (v : jsval) : jsval :=
  match v with
  | JObj l =>
      JObj ((fix go (l : list (string * jsval)) : list (string * jsval) :=
               match l with
               | [] => []
               | (k, x) :: r =>
                   if is_undefined x then go r else (k, jsonValue x) :: go r
               end) l)
  | _ => v
  end.

Definition jsonAccount (a : Account) : Account :=
  {| id := id a;
     props := jsonValue <$> filter (fun kv => is_undefined kv.2 = false) (props a) |}.

(** [fs.writeJSON(ACCOUNTS_FILE, {accounts})] *)
Definition writeAccountsFile (accounts : list Account) : Async unit :=
  fun st =>
    if canWrite st
    then (Ok tt, set_file st (Some (Parsed (RawObject (Some (jsonAccount <$> accounts))))))
    else (Throw errWrite, st).

(** The [operation] of [loadAccounts]. *)
Definition loadOperation : Async (list Account) :=
  fun st =>
    match file st with
    | Some Unparseable => (Throw errParse, st)
    | Some (Parsed (RawArray raw)) =>
        then_ (writeAccountsFile raw) (fun _ => resolved raw) st
    | Some (Parsed (RawObject None)) => (Ok [], st)
    | Some (Parsed (RawObject (Some accounts))) => (Ok accounts, st)
    | None => then_ (writeAccountsFile []) (fun _ => resolved []) st
    end.

(** [loadAccounts()]: the operation runs behind the queue, and the queue
    continues whether it failed or not. *)
Definition loadAccounts : Async (list Account) :=
  fun st =>
    let '(r, st') := then_ queueTail (fun _ => loadOperation) st in
    (r, set_saveQueue st' (Ok tt)).

(** The [operation] of [saveAccounts]: write the temporary file, rename it
    over the accounts file; a failure is printed and thrown again. *)
Definition saveOperation (data : list Account) : Async unit :=
  catch_
    (fun st =>
       if canWrite st then
         let st1 := set_tmpFile st (Some (Parsed (RawObject (Some (jsonAccount <$> data))))) in
         if canMove st1
         then (Ok tt, set_tmpFile (set_file st1 (tmpFile st1)) None)
         else (Throw errMove, st1)
       else (Throw errWrite, st))
    (fun e st =>
       (Throw e, console_error ("[Database] Failed to save accounts atomically: "
                                  +:+ errorToString e) st)).

(** [pushAccounts()], the replication call of [cloud.ts]. *)
Definition pushAccounts : Async unit :=
  fun st =>
    if pushThrows st
    then (Throw (mkError "Error" "cloud sync failed"), st)
    else (Ok tt, add_push st).

(** [saveAccounts(data)]:
    [saveQueue = saveQueue.then(operation).then(push).catch(log)], and that
    promise is what the caller gets. *)
Definition saveAccounts (data : list Account) : Async unit :=
  fun st =>
    let chain :=
      catch_
        (then_ (then_ queueTail (fun _ => saveOperation data)) (fun _ => pushAccounts))
        (fun err st' =>
           (Ok tt, console_error ("[Database] Critical error in save queue: "
                                    +:+ errorToString err) st')) in
    let '(r, st') := chain st in
    (r, set_saveQueue st' r).

(** The predicate of every lookup: [a.id.toLowerCase() === id]. *)
Definition hasId (wanted : string) (a : Account) : Prop :=
  Str.toLowerCase (id a) = wanted.

Global Instance hasId_dec wanted a : Decision (hasId wanted a).
Proof. unfold hasId. apply _. Defined.

(** [getAccount(accountId)] *)
Definition getAccount (accountId : string) : Async (option Account) :=
  then_ loadAccounts (fun data =>
    resolved (snd <$> list_find (hasId (Str.normalizeId accountId)) data)).

(** The defaults of a new record. *)
Definition newDefaults (now : string) : obj :=
  {[ "loginType" := JStr "mobile";
     "identifier" := JStr "";
     "status" := JStr "New";
     "createdAt" := JStr now;
     "updatedAt" := JStr now ]}.

(** The synchronous middle of [upsertAccount]: the record it returns and
    the list it hands to [saveAccounts]. *)
Definition upsertIn (account : Account) (now : string) (data : list Account)
  : Account * list Account :=
  let wanted := Str.normalizeId (id account) in
  match list_find (hasId wanted) data with
  | Some (existingIndex, existing) =>
      (* { ...existing, ...account, updatedAt: now } *)
      let updated :=
        {| id := id account;
           props := <["updatedAt" := JStr now]> (spread (props existing) (props account)) |} in
      (updated, <[existingIndex := updated]> data)
  | None =>
      (* { loginType, identifier, status, createdAt, updatedAt, ...account, id } *)
      let newAccount :=
        {| id := wanted;
           props := spread (newDefaults now) (props account) |} in
      (newAccount, data ++ [newAccount])
  end.

(** [upsertAccount(account)], called when the clock reads [now]. *)
Definition upsertAccount (account : Account) (now : string) : Async Account :=
  then_ loadAccounts (fun data =>
    let '(result, data') := upsertIn account now data in
    then_ (saveAccounts data') (fun _ => resolved result)).

(** The assignments of [updateAccountStatus] to the record found. *)
Definition applyStatus (status : AccountStatus) (errorCode : option string)
    (now : string) (a : Account) : Account :=
  let p1 := <["updatedAt" := JStr now]> (<["status" := JStr (statusName status)]> (props a)) in
  let p2 :=
    match status, errorCode with
    | Healthy, _ => delete "errorCode" (<["lastValidateAt" := JStr now]> p1)
    | _, Some code =>
        if Str.is_empty code then p1 else <["errorCode" := JStr code]> p1
    | _, None => p1
    end in
  {| id := id a; props := p2 |}.

(** [updateAccountStatus(accountId, status, errorCode)] *)
Definition updateAccountStatus (accountId : string) (status : AccountStatus)
    (errorCode : option string) (now : string) : Async unit :=
  then_ loadAccounts (fun data =>
    match list_find (hasId (Str.normalizeId accountId)) data with
    | Some (i, account) =>
        saveAccounts (<[i := applyStatus status errorCode now account]> data)
    | None => resolved tt
    end).

(** [updateLastLogin(accountId)] *)
Definition updateLastLogin (accountId : string) (now : string) : Async unit :=
  then_ loadAccounts (fun data =>
    match list_find (hasId (Str.normalizeId accountId)) data with
    | Some (i, account) =>
        let p :=
          delete "errorCode"
            (<["updatedAt" := JStr now]>
               (<["status" := JStr "Healthy"]>
                  (<["lastValidateAt" := JStr now]>
                     (<["lastLoginAt" := JStr now]> (props account))))) in
        saveAccounts (<[i := {| id := id account; props := p |}]> data)
    | None => resolved tt
    end).

(** [a.platform === platform] *)
Definition platformIs (platform : string) (a : Account) : bool :=
  match props a !! "platform" with
  | Some (JStr p) => String.eqb p platform
  | _ => false
  end.

(** [getAccountsByPlatform(platform)] *)
Definition getAccountsByPlatform (platform : string) : Async (list Account) :=
  then_ loadAccounts (fun data =>
    resolved (filter (fun a => platformIs platform a = true) data)).

(** [getAllAccountIds()] *)
Definition getAllAccountIds : Async (list string) :=
  then_ loadAccounts (fun data => resolved (id <$> data)).

(** [deleteAccount(accountId)] *)
Definition deleteAccount (accountId : string) : Async bool :=
  then_ loadAccounts (fun data =>
    match list_find (hasId (Str.normalizeId accountId)) data with
    | Some (index, _) =>
        then_ (saveAccounts (delete index data)) (fun _ => resolved true)
    | None => resolved false
    end).

(** The accounts that the file holds, and a property of the stored record
    that a lookup of [accountId] finds. *)
Definition storedAccounts (st : Store) : list Account :=
  match file st with
  | Some (Parsed (RawArray l)) => l
  | Some (Parsed (RawObject (Some l))) => l
  | _ => []
  end.

Definition storedProp (st : Store) (accountId key : string) : option jsval :=
  match list_find (hasId (Str.normalizeId accountId)) (storedAccounts st) with
  | Some (_, a) => props a !! key
  | None => None
  end.

(** ** Status updates *)

(** The assignments of a status update: the id is kept, [status] and
    [updatedAt] are set; [Healthy] also stamps [lastValidateAt] and removes
    [errorCode]; any other status records a non-empty error code it was
    given and keeps the old one when it was given none. *)
Theorem applyStatus_spec (status : AccountStatus) (errorCode : option string)
    (now : string) (a : Account) :
  let a' := applyStatus status errorCode now a in
  id a' = id a /\
  props a' !! "status" = Some (JStr (statusName status)) /\
  props a' !! "updatedAt" = Some (JStr now) /\
  match status with
  | Healthy =>
      props a' !! "errorCode" = None /\
      props a' !! "lastValidateAt" = Some (JStr now)
  | _ =>
      props a' !! "lastValidateAt" = props a !! "lastValidateAt" /\
      match errorCode with
      | Some code =>
          if Str.is_empty code
          then props a' !! "errorCode" = props a !! "errorCode"
          else props a' !! "errorCode" = Some (JStr code)
      | None => props a' !! "errorCode" = props a !! "errorCode"
      end
  end.
Proof.
  cbv zeta. unfold applyStatus. split; [done|].
  destruct status; cbn [props];
    try (destruct errorCode as [code|]; [destruct (Str.is_empty code)|]);
    repeat split;
    repeat first
      [ rewrite lookup_delete_eq | rewrite lookup_insert_eq
      | rewrite lookup_delete_ne by done | rewrite lookup_insert_ne by done ];
    reflexivity.
Qed.

(** ** The write queue *)

(** The promise [saveAccounts] returns is resolved in every store: whatever
    the queue held, whether the write or the rename failed, and whether the
    replication call threw. *)
Lemma saveAccounts_resolves (data : list Account) (st : Store) :
  (saveAccounts data st).1 = Ok tt.
Proof.
  unfold saveAccounts, catch_, then_, queueTail, saveOperation, catch_, pushAccounts.
  destruct (saveQueue st) as [[]|]; [|done].
  destruct (canWrite st); [|done]. cbn [canMove set_tmpFile].
  destruct (canMove st); [|done]. cbn [pushThrows set_tmpFile set_file].
  destruct (pushThrows st); done.
Qed.

(** The queue is left resolved by both [loadAccounts] and [saveAccounts]. *)
Lemma saveAccounts_queue (data : list Account) (st : Store) :
  saveQueue (saveAccounts data st).2 = Ok tt.
Proof.
  pose proof (saveAccounts_resolves data st) as Hr.
  unfold saveAccounts in *. destruct (catch_ _ _ st) as [r st'].
  cbn [fst snd] in *. by subst r.
Qed.

Lemma loadAccounts_queue (st : Store) : saveQueue (loadAccounts st).2 = Ok tt.
Proof. unfold loadAccounts. by destruct (then_ _ _ st). Qed.

(** When the write or the rename fails, the accounts file stays as it was. *)
Lemma saveAccounts_failed_write (data : list Account) (st : Store) :
  canWrite st = false \/ canMove st = false ->
  file (saveAccounts data st).2 = file st.
Proof.
  intros Hfail.
  unfold saveAccounts, catch_, then_, queueTail, saveOperation, catch_, pushAccounts.
  destruct (saveQueue st) as [[]|]; [|done].
  destruct (canWrite st) eqn:Hw; [|done]. cbn [canMove set_tmpFile].
  destruct (canMove st) eqn:Hm; [|done].
  by destruct Hfail.
Qed.

Lemma loadAccounts_flags (st : Store) :
  canWrite (loadAccounts st).2 = canWrite st /\
  canMove (loadAccounts st).2 = canMove st.
Proof.
  unfold loadAccounts, then_, queueTail, loadOperation, then_, writeAccountsFile, resolved.
  destruct (saveQueue st) as [[]|]; [|done].
  destruct (file st) as [[|[raw|[accounts|]]]|]; try done;
    destruct (canWrite st) eqn:Hw; done.
Qed.

Lemma then_loadAccounts {B} (f : list Account -> Async B) (st : Store) (data : list Account) :
  (loadAccounts st).1 = Ok data ->
  then_ loadAccounts f st = f data (loadAccounts st).2.
Proof.
  unfold then_. destruct (loadAccounts st) as [r st1]. cbn [fst snd]. by intros ->.
Qed.

Lemma then_saveAccounts {B} (d : list Account) (f : unit -> Async B) (st : Store) :
  then_ (saveAccounts d) f st = f tt (saveAccounts d st).2.
Proof.
  unfold then_. pose proof (saveAccounts_resolves d st) as Hr.
  destruct (saveAccounts d st) as [r st1]. cbn [fst snd] in *. by subst r.
Qed.

(** ** [upsertAccount] *)

Lemma upsertAccount_result (account : Account) (now : string) (st : Store)
    (data : list Account) :
  (loadAccounts st).1 = Ok data ->
  (upsertAccount account now st).1 = Ok (upsertIn account now data).1.
Proof.
  intros Hload. unfold upsertAccount. rewrite (then_loadAccounts _ _ _ Hload).
  destruct (upsertIn account now data) as [result data'].
  by rewrite then_saveAccounts.
Qed.

(** C6, as amended. Whenever the document loads, [upsertAccount] returns a
    record. If a stored record has the id looked for (lower-cased stored id
    against the lower-cased, trimmed id of the argument), the result is that
    record merged with the argument: every property of the argument, the
    stored value for every property the argument omits, and [updatedAt] set
    to the current time. If there is none, the result is a new record under
    the normalized id with the properties of the argument; its [status] is
    [New] and its [updatedAt] the current time when the argument carries
    none of its own. *)
Theorem upsertAccount_merges (account : Account) (now : string) (st : Store)
    (data : list Account) :
  (loadAccounts st).1 = Ok data ->
  exists result,
    (upsertAccount account now st).1 = Ok result /\
    match list_find (hasId (Str.normalizeId (id account))) data with
    | Some (_, existing) =>
        id result = id account /\
        (forall k v, props account !! k = Some v -> k <> "updatedAt" ->
           props result !! k = Some v) /\
        (forall k, props account !! k = None -> k <> "updatedAt" ->
           props result !! k = props existing !! k) /\
        props result !! "updatedAt" = Some (JStr now)
    | None =>
        id result = Str.normalizeId (id account) /\
        (forall k v, props account !! k = Some v -> props result !! k = Some v) /\
        (props account !! "status" = None ->
           props result !! "status" = Some (JStr "New")) /\
        (props account !! "updatedAt" = None ->
           props result !! "updatedAt" = Some (JStr now))
    end.
Proof.
  intros Hload. eexists. split; [by apply upsertAccount_result|].
  unfold upsertIn.
  destruct (list_find _ data) as [[i existing]|]; cbn [fst id props].
  - split; [done|]. split; [|split].
    + intros k v Hk Hne. rewrite lookup_insert_ne by done.
      unfold spread. by apply lookup_union_Some_l.
    + intros k Hk Hne. rewrite lookup_insert_ne by done.
      unfold spread. by apply lookup_union_r.
    + apply lookup_insert_eq.
  - split; [done|]. unfold spread. split; [|split].
    + intros k v Hk. by apply lookup_union_Some_l.
    + intros Hk. by rewrite lookup_union_r.
    + intros Hk. by rewrite lookup_union_r.
Qed.

(** ** The claim as the specification words it *)

(** "The existing record is field-merged, a new record gets default status
    New; in both cases updatedAt is stamped with the current time." *)
Definition upsert_spec_claim : Prop :=
  forall account now st data result,
    (loadAccounts st).1 = Ok data ->
    (upsertAccount account now st).1 = Ok result ->
    match list_find (hasId (Str.normalizeId (id account))) data with
    | Some (_, existing) =>
        forall k, k <> "updatedAt" ->
          props result !! k = spread (props existing) (props account) !! k
    | None =>
        props account !! "status" = None ->
        props result !! "status" = Some (JStr "New")
    end /\
    props result !! "updatedAt" = Some (JStr now).

(** ** All mutations report success *)


End Accounts.

(* ================================================================== *)
(** * The session registry ([browserManager.ts]) *)
(* ================================================================== *)

Module BrowserManager.

(** A [BrowserContext] is known by its identity. *)
Definition Context : Type := nat.

(** The [contexts] map in insertion order, and the close listeners that
    [register] subscribed: closing context [c] deletes key [k] for every
    listener [(c, k)]. *)
Record Registry : Type := mkRegistry {
  contexts : list (string * Context);
  listeners : list (Context * string);
}.

Definition empty : Registry := mkRegistry [] [].

(** [Map.prototype.set]: an existing key keeps its place. *)
Fixpoint mapSet (id : string) (c : Context) (m : list (string * Context))
  : list (string * Context) :=
  match m with
  | [] => [(id, c)]
  | (k, v) :: r => if String.eqb k id then (k, c) :: r else (k, v) :: mapSet id c r
  end.

(** [Map.prototype.delete] *)
Definition mapDelete (id : string) (m : list (string * Context))
  : list (string * Context) :=
  filter (fun kv => String.eqb kv.1 id = false) m.

(** [register(id, context)] *)
Definition register (id : string) (c : Context) (r : Registry) : Registry :=
  {| contexts := mapSet id c (contexts r);
     listeners := listeners r ++ [(c, id)] |}.

(** The context's [close] event: every listener on it runs, and a closed
    context emits nothing further. *)
Definition emitClose (c : Context) (r : Registry) : Registry :=
  {| contexts :=
       foldr (fun l m => if Nat.eqb l.1 c then mapDelete l.2 m else m)
             (contexts r) (listeners r);
     listeners := filter (fun l => Nat.eqb l.1 c = false) (listeners r) |}.

(** [isActive(idPrefix)] *)
Definition isActive (idPrefix : string) (r : Registry) : bool :=
  existsb (fun kv => Str.startsWith kv.1 idPrefix) (contexts r).

(** [closeAll()]: every tracked context is asked to close; one that closes
    emits its event, one that fails is only logged; then the map is cleared. *)
Definition closeAll (closeFails : Context -> bool) (r : Registry) : Registry :=
  let r' :=
    foldl (fun acc kv => if closeFails kv.2 then acc else emitClose kv.2 acc)
          r (contexts r) in
  {| contexts := []; listeners := listeners r' |}.

Lemma isActive_register (id pre : string) (c : Context) (r : Registry) :
  Str.startsWith id pre = true -> isActive pre (register id c r) = true.
Proof.
  intros Hpre. unfold isActive, register. cbn [contexts].
  induction (contexts r) as [|[k v] m IH]; simpl.
  - by rewrite Hpre.
  - destruct (String.eqb k id) eqn:Hk; simpl.
    + apply String.eqb_eq in Hk. subst k. by rewrite Hpre.
    + rewrite IH. apply orb_true_r.
Qed.

Lemma mapDelete_absent (id : string) (m : list (string * Context)) :
  id ∉ (mapDelete id m).*1.
Proof.
  unfold mapDelete. intros [[k v] [Hk Hin]]%list_elem_of_fmap.
  apply list_elem_of_filter in Hin as [Hne _]. cbn in *. subst k.
  by rewrite String.eqb_refl in Hne.
Qed.

Lemma mapDelete_keeps_absent (id k : string) (m : list (string * Context)) :
  id ∉ m.*1 -> id ∉ (mapDelete k m).*1.
Proof.
  unfold mapDelete. intros Habs [kv [Hk Hin]]%list_elem_of_fmap.
  apply list_elem_of_filter in Hin as [_ Hin]. apply Habs.
  apply list_elem_of_fmap. by exists kv.
Qed.

Lemma deletions_keep_absent (id : string) (c : Context)
    (ls : list (Context * string)) (m : list (string * Context)) :
  id ∉ m.*1 ->
  id ∉ (foldr (fun l m' => if Nat.eqb l.1 c then mapDelete l.2 m' else m') m ls).*1.
Proof.
  intros Habs. induction ls as [|l ls IH]; cbn [foldr]; [done|].
  cbn beta. case_match; [by apply mapDelete_keeps_absent|done].
Qed.

(** X10. A key that was registered for a context is gone from the registry
    once that context has emitted its [close] event; nobody has to
    deregister it. *)
Theorem register_then_close_removes (id : string) (c : Context) (r : Registry) :
  id ∉ (contexts (emitClose c (register id c r))).*1.
Proof.
  unfold emitClose, register. cbn [contexts listeners].
  rewrite foldr_app. cbn [foldr fst snd]. cbn beta. rewrite Nat.eqb_refl.
  apply deletions_keep_absent, mapDelete_absent.
Qed.

Lemma closeAll_contexts (closeFails : Context -> bool) (r : Registry) :
  contexts (closeAll closeFails r) = [].
Proof. reflexivity. Qed.

End BrowserManager.

(* ================================================================== *)
(** * The world the automation runs in *)
(* ================================================================== *)

Module Automation.
Import Js BrowserManager.

(** A browser that was started: on which profile directory, headless or
    not, and the context it gave. *)
Record Launch : Type := mkLaunch {
  launchProfile : string;
  launchHeadless : bool;
  launchContext : Context;
}.

(** The account store, the registry [browsers], the [activeContexts] map of
    the flipkart login module (a map with its own close listeners, so a
    registry as well), and the browsers started so far. *)
Record World : Type := mkWorld {
  store : Accounts.Store;
  browsers : Registry;
  activeContexts : Registry;
  launches : list Launch;
}.

Definition set_store (w : World) (s : Accounts.Store) : World :=
  mkWorld s (browsers w) (activeContexts w) (launches w).
Definition set_browsers (w : World) (r : Registry) : World :=
  mkWorld (store w) r (activeContexts w) (launches w).
Definition set_activeContexts (w : World) (m : Registry) : World :=
  mkWorld (store w) (browsers w) m (launches w).
Definition add_launch (w : World) (l : Launch) : World :=
  mkWorld (store w) (browsers w) (activeContexts w) (launches w ++ [l]).

(** What a call into the browser can do: return, fail, or find that the
    operator has closed the window. In the last case the context emits its
    [close] event and the call rejects with Playwright's error for a closed
    target. *)
Inductive Step (A : Type) : Type :=
  | Done (a : A)
  | Failed (e : JsError)
  | ClosedByOperator.
Global Arguments Done {A} a.
Global Arguments Failed {A} e.
Global Arguments ClosedByOperator {A}.

Definition errTargetClosed : JsError :=
  mkError "Error" "Target page, context or browser has been closed".

(** The context's [close] event reaches the listeners of the registry and
    those of the flipkart login module. *)
Definition contextClosed (c : Context) (w : World) : World :=
  set_activeContexts (set_browsers w (emitClose c (browsers w)))
    (emitClose c (activeContexts w)).

(** Running one call on context [c]. *)
Definition step {A} (c : Context) (s : Step A) (w : World) : Result A * World :=
  match s with
  | Done a => (Ok a, w)
  | Failed e => (Throw e, w)
  | ClosedByOperator => (Throw errTargetClosed, contextClosed c w)
  end.

(** [await context.close()]: closing emits the event; on a context that is
    already closed it returns at once. *)
Definition closeContext (c : Context) (outcome : Step unit) (w : World)
  : Result unit * World :=
  match outcome with
  | Done _ | ClosedByOperator => (Ok tt, contextClosed c w)
  | Failed e => (Throw e, w)
  end.

(** An account-store call made from a flow. *)
Definition onStore {A} (f : Accounts.Async A) (w : World) : Result A * World :=
  let '(r, s) := f (store w) in (r, set_store w s).

End Automation.

(* ================================================================== *)
(** * The health prober ([check/health.ts]) *)
(* ================================================================== *)

Module Health.
Import Js BrowserManager Automation Config.
Import Fingerprint (Platform, flipkart, shopsy, platformName).

Record HealthResult : Type := mkHealth { status : string; message : string }.

(** What the probe meets outside the program: whether the profile directory
    exists, what [launchPersistentContext] gives, what the page holds after
    [newPage], [goto], the wait and [content], and what closing gives. *)
Record ProbeEnv : Type := mkProbe {
  profileExists : bool;
  launch : Result Context;
  content : Step string;
  close : Step unit;
}.

(** The markers of a signed-in page. *)
Definition looksHealthy (platform : Platform) (html : string) : bool :=
  match platform with
  | flipkart =>
      let hasAccountMenu :=
        Str.includes html "Account" && negb (Str.includes html "Login & Signup") in
      let hasCartAccess := Str.includes html "Cart" in
      let noLoginPrompt := negb (Str.includes html "Enter Email/Mobile") in
      hasAccountMenu && hasCartAccess && noLoginPrompt
  | shopsy =>
      let hasYouMenu := Str.includes html ">You<" || Str.includes html "You</" in
      let hasCartAccess := Str.includes html "Cart" in
      let noLoginPrompt := negb (Str.includes html "Login") || Str.includes html "Logout" in
      (hasYouMenu || hasCartAccess) && noLoginPrompt
  end.

(** [checkAccountHealth(platform, accountId)] *)
Definition checkAccountHealth (platform : Platform) (accountId : string)
    (env : ProbeEnv) (w : World) : HealthResult * World :=
  let profilePath :=
    join (join (join PROFILES_DIR (platformName platform)) accountId) "userDataDir" in
  let isFlipkartOpen := isActive ("flipkart-" +:+ accountId) (browsers w) in
  let isShopsyOpen := isActive ("shopsy-" +:+ accountId) (browsers w) in
  if isFlipkartOpen || isShopsyOpen
  then (mkHealth "Healthy" "Browser session currently active", w)
  else if negb (profileExists env)
  then (mkHealth "MISSING_PROFILE" "No local profile found", w)
  else
    match launch env with
    | Throw err => (mkHealth "Error" ("Check failed: " +:+ errorToString err), w)
    | Ok context =>
        let w1 := add_launch w (mkLaunch profilePath true context) in
        let w2 := set_browsers w1
          (register (platformName platform +:+ "-" +:+ accountId +:+ "-health")
                    context (browsers w1)) in
        match step context (content env) w2 with
        | (Ok html, w3) =>
            match closeContext context (close env) w3 with
            | (Ok _, w4) =>
                if looksHealthy platform html
                then (mkHealth "Healthy" "Session valid", w4)
                else (mkHealth "ActionNeeded" "Session may be expired", w4)
            | (Throw err, w4) =>
                (* catch: context.close().catch(() => {}) *)
                (mkHealth "Error" ("Check failed: " +:+ errorToString err),
                 (closeContext context (close env) w4).2)
            end
        | (Throw err, w3) =>
            (mkHealth "Error" ("Check failed: " +:+ errorToString err),
             (closeContext context (close env) w3).2)
        end
    end.


End Health.

(* ================================================================== *)
(** * The login flows ([login/flipkart.ts], [login/shopsy.ts]) *)
(* ================================================================== *)

Module Login.
Import Js BrowserManager Automation Config.

Record LoginOptions : Type := mkOptions {
  accountId : string;
  identifier : string;
  headless : bool;
  keepOpen : bool;
}.

(** [{ status, message }] *)
Record LoginResult : Type := mkResult { status : string; message : string }.

(** A flow step: it runs on the world and returns or throws. *)
Definition Flow (A : Type) : Type := World -> Result A * World.

Definition ret {A} (a : A) : Flow A := fun w => (Ok a, w).
Definition throw {A} (e : JsError) : Flow A := fun w => (Throw e, w).
Definition lift {A} (r : Result A) : Flow A := fun w => (r, w).

Definition andThen {A B} (m : Flow A) (k : A -> Flow B) : Flow B :=
  fun w =>
    match m w with
    | (Ok a, w') => k a w'
    | (Throw e, w') => (Throw e, w')
    end.

(** [try { m } catch (e) { h(e) }] *)
Definition tryCatch {A} (m : Flow A) (h : JsError -> Flow A) : Flow A :=
  fun w =>
    match m w with
    | (Ok a, w') => (Ok a, w')
    | (Throw e, w') => h e w'
    end.

(** [try { m } catch { }] *)
Definition swallow (m : Flow unit) : Flow unit := tryCatch m (fun _ => ret tt).

Notation "x <- m ;; k" := (andThen m (fun x => k))
  (at level 100, m at next level, right associativity, only parsing).
Notation "m ;;; k" := (andThen m (fun _ => k))
  (at level 100, right associativity, only parsing).

(** [accountData?.emailConfig?.passEncrypted], when it is truthy. *)
Definition passEncryptedOf (accountData : option Accounts.Account) : option string :=
  match accountData with
  | Some a =>
      match Accounts.props a !! "emailConfig" with
      | Some (JObj fields) =>
          match List.find (fun kv => String.eqb kv.1 "passEncrypted") fields with
          | Some (_, JStr pass) => if Str.is_empty pass then None else Some pass
          | _ => None
          end
      | _ => None
      end
  | None => None
  end.

(** One round of looking for the one-time code: what the two mailboxes
    give ([fetchFlipkartOtp] returns [null] instead of throwing), what typing
    the code into the page does, and what the 15 s wait does. *)
Record OtpRound : Type := mkRound {
  accountOtp : option string;
  masterOtp : option string;
  enterOtp : Step unit;
  roundWait : Step unit;
}.

(** What [loginFlipkart] meets outside the program, call by call:
    whether the context found in [activeContexts] still has its first page
    open, the launch, [fk_open] for [newPage], the overlay and [goto], the
    first [Promise.race] (each of its promises catches its own failure),
    whether the shared mailbox is configured, the 10 s wait, the rounds of
    the code search, the second [Promise.race], the 3 s wait, the cookie
    extraction, [context.close()] and [saveProfileToDisk]. The cookie
    injection before the [try], the click on the login link and the filling
    of the identifier are wrapped in their own [try]/[catch] that only logs,
    so they have no outcome here. *)
Record FlipkartEnv : Type := mkFlipkartEnv {
  fk_existingPageOpen : bool;
  fk_launch : Result Context;
  fk_open : Step unit;
  fk_isLoggedIn : bool;
  fk_masterEmail : bool;
  fk_warmup : Step unit;
  fk_otp : nat -> OtpRound;
  fk_detect : Step unit;
  fk_settle : Step unit;
  fk_extract : Step nat;
  fk_close : Step unit;
  fk_saveProfile : Result unit;
}.

Definition errOtpFailed : JsError :=
  mkError "Error"
    "OTP Fetching Failed: Exhausted all attempts to retrieve/enter OTP from email.".
Definition errConfigMissing : JsError :=
  mkError "Error"
    "Configuration Missing: Headless login requested but no Recovery Email or Master Email configured.".

(** [for (let i = 0; i < 3; i++) { ... }]: [rounds] iterations are left,
    the next is number [i]; the result is [otpFound]. *)
Fixpoint otpLoop (env : FlipkartEnv) (context : Context) (hasAccountMail : bool)
    (rounds i : nat) : Flow bool :=
  match rounds with
  | 0 => ret false
  | S rounds' =>
      let round := fk_otp env i in
      let otp1 := if hasAccountMail then accountOtp round else None in
      let otp :=
        match otp1 with
        | Some code => Some code
        | None => if fk_masterEmail env then masterOtp round else None
        end in
      match otp with
      | Some _ =>
          tryCatch (step context (enterOtp round) ;;; ret true)
                   (fun _ => otpLoop env context hasAccountMail rounds' (S i))
      | None =>
          step context (roundWait round) ;;;
          otpLoop env context hasAccountMail rounds' (S i)
      end
  end.

(** The [try] block of [loginFlipkart]. *)
Definition flipkartBody (o : LoginOptions) (env : FlipkartEnv) (now : string)
    (context : Context) : Flow LoginResult :=
  step context (fk_open env) ;;;
  if fk_isLoggedIn env then
    (if keepOpen o then ret tt else closeContext context (fk_close env)) ;;;
    ret (mkResult "success" "Already logged in")
  else
    accountData <- onStore (Accounts.getAccount (accountId o)) ;;
    let accountPass := passEncryptedOf accountData in
    let hasEmailConfig := bool_decide (is_Some accountPass) || fk_masterEmail env in
    (if hasEmailConfig then
       step context (fk_warmup env) ;;;
       otpFound <- otpLoop env context (bool_decide (is_Some accountPass)) 3 0 ;;
       if negb otpFound && negb (keepOpen o) then throw errOtpFailed else ret tt
     else if negb (keepOpen o) then throw errConfigMissing
     else ret tt) ;;;
    tryCatch (step context (fk_detect env))
      (fun e =>
         if keepOpen o &&
            (String.eqb (name e) "TimeoutError" || Str.includes (Js.message e) "timeout")
         then ret tt else throw e) ;;;
    step context (fk_settle env) ;;;
    tryCatch (step context (fk_extract env) ;;; ret tt)
      (fun err => if negb (keepOpen o) then throw err else ret tt) ;;;
    closeContext context (fk_close env) ;;;
    lift (fk_saveProfile env) ;;;
    onStore (Accounts.updateLastLogin (accountId o) now) ;;;
    ret (mkResult "success" "Login completed").

(** The [catch] block of [loginFlipkart]. *)
Definition flipkartCatch (o : LoginOptions) (env : FlipkartEnv) (now : string)
    (context : Context) (err : JsError) : Flow LoginResult :=
  if Str.includes (Js.message err) "closed" ||
     Str.includes (Js.message err) "browser has been closed"
  then
    swallow (closeContext context (fk_close env)) ;;;
    ret (mkResult "cancelled" "Browser closed by user")
  else
    onStore (Accounts.updateAccountStatus (accountId o) Accounts.Error
               (Some (errorToString err)) now) ;;;
    swallow (closeContext context (fk_close env)) ;;;
    throw err.

(** [loginFlipkart(options)], called when the clock reads [now]. *)
Definition loginFlipkart (o : LoginOptions) (env : FlipkartEnv) (now : string)
  : Flow LoginResult :=
  fun w =>
    let reuse :=
      bool_decide (is_Some (List.find (fun kv => String.eqb kv.1 (accountId o))
                              (contexts (activeContexts w))))
      && fk_existingPageOpen env in
    if reuse then (Ok (mkResult "success" "Browser already open"), w)
    else
      (* a stale entry is deleted *)
      let w0 := set_activeContexts w
        (mkRegistry (mapDelete (accountId o) (contexts (activeContexts w)))
                    (listeners (activeContexts w))) in
      let profilePath :=
        join (join (join PROFILES_DIR "flipkart") (accountId o)) "userDataDir" in
      match fk_launch env with
      | Throw e => (Throw e, w0)
      | Ok context =>
          let w1 := add_launch w0 (mkLaunch profilePath (headless o) context) in
          let w2 := set_activeContexts w1
            (register (accountId o) context (activeContexts w1)) in
          let w3 := set_browsers w2
            (register (accountId o +:+ "-flipkart-login") context (browsers w2)) in
          tryCatch (flipkartBody o env now context)
                   (flipkartCatch o env now context) w3
      end.

(** What [loginShopsy] meets outside the program. [sh_open] is [newPage],
    the injection of the sibling platform's cookies, the overlay and
    [goto]; [sh_loggedInRace] is the first [Promise.race], whose selector
    wait has no [catch] of its own; [sh_load] is the 5 s wait. The click on
    the first login button, the filling of the phone number and the cookie
    extraction are wrapped in a [try]/[catch] that only logs, so they have
    no outcome here. *)
Record ShopsyEnv : Type := mkShopsyEnv {
  sh_launch : Result Context;
  sh_open : Step unit;
  sh_loggedInRace : Step bool;
  sh_load : Step unit;
  sh_loginButtons : Step nat;
  sh_detect : Step unit;
  sh_settle : Step unit;
  sh_close : Step unit;
  sh_saveProfile : Result unit;
}.

(** The [try] block of [loginShopsy]. *)
Definition shopsyBody (o : LoginOptions) (env : ShopsyEnv) (now : string)
    (context : Context) : Flow LoginResult :=
  step context (sh_open env) ;;;
  step context (sh_loggedInRace env) ;;;
  step context (sh_load env) ;;;
  step context (sh_loginButtons env) ;;;
  step context (sh_detect env) ;;;
  step context (sh_settle env) ;;;
  closeContext context (sh_close env) ;;;
  lift (sh_saveProfile env) ;;;
  onStore (Accounts.updateLastLogin (accountId o) now) ;;;
  ret (mkResult "success" "Login completed and profile saved").

(** The [catch] block of [loginShopsy]: every error is recorded and thrown
    again. *)
Definition shopsyCatch (o : LoginOptions) (env : ShopsyEnv) (now : string)
    (context : Context) (err : JsError) : Flow LoginResult :=
  onStore (Accounts.updateAccountStatus (accountId o) Accounts.Error
             (Some (errorToString err)) now) ;;;
  closeContext context (sh_close env) ;;;
  throw err.

(** [loginShopsy(options)], called when the clock reads [now]. *)
Definition loginShopsy (o : LoginOptions) (env : ShopsyEnv) (now : string)
  : Flow LoginResult :=
  fun w =>
    let profilePath :=
      join (join (join PROFILES_DIR "shopsy") (accountId o)) "userDataDir" in
    match sh_launch env with
    | Throw e => (Throw e, w)
    | Ok context =>
        let w1 := add_launch w (mkLaunch profilePath (headless o) context) in
        let w2 := set_browsers w1
          (register (accountId o +:+ "-shopsy-login") context (browsers w1)) in
        tryCatch (shopsyBody o env now context)
                 (shopsyCatch o env now context) w2
    end.

(** ** The two [catch] blocks *)


(** The error Playwright raises on a closed target is of that kind. *)
Lemma errTargetClosed_mentions_closed :
  Str.includes (Js.message errTargetClosed) "closed" = true.
Proof. reflexivity. Qed.

(** In [loginShopsy], the [catch] block never returns: whatever the error,
    the flow ends by throwing. *)
Lemma shopsyCatch_throws (o : LoginOptions) (env : ShopsyEnv) (now : string)
    (context : Context) (err : JsError) (w : World) :
  is_ok (shopsyCatch o env now context err w).1 = false.
Proof.
  unfold shopsyCatch, andThen.
  destruct (onStore _ w) as [[[]|e1] w1]; [|done].
  destruct (closeContext context (sh_close env) w1) as [[[]|e2] w2]; done.
Qed.

(** The error it was given reaches [updateAccountStatus] as the error code
    of status [Error]. *)
Lemma shopsyCatch_records_error (o : LoginOptions) (env : ShopsyEnv) (now : string)
    (context : Context) (err : JsError) (w : World) :
  exists r w',
    onStore (Accounts.updateAccountStatus (accountId o) Accounts.Error
               (Some (errorToString err)) now) w = (r, w') /\
    (r = Ok tt ->
     shopsyCatch o env now context err w
       = andThen (closeContext context (sh_close env)) (fun _ => throw err) w').
Proof.
  unfold shopsyCatch, andThen.
  destruct (onStore _ w) as [r w1]. exists r, w1. split; [done|].
  by intros ->.
Qed.

(** X7. So [loginShopsy] knows one result only: when it returns at all,
    the status is [success]; it has no cancelled result. *)
Lemma loginShopsy_returns_success_only (o : LoginOptions) (env : ShopsyEnv)
    (now : string) (w : World) (r : LoginResult) :
  (loginShopsy o env now w).1 = Ok r -> status r = "success".
Proof.
  unfold loginShopsy. destruct (sh_launch env) as [context|]; [|done].
  set (w2 := set_browsers _ _). unfold tryCatch.
  destruct (shopsyBody o env now context w2) as [[r'|err] wb] eqn:Hbody.
  - cbn [fst]. intros [= <-]. revert Hbody. unfold shopsyBody, andThen, ret.
    repeat match goal with
    | |- context [match ?m with (_, _) => _ end] =>
        let r := fresh "r" in let w := fresh "w" in
        destruct m as [[r|?] w]; [|intros [=]]
    end.
    by intros [= <- _].
  - pose proof (shopsyCatch_throws o env now context err wb) as Hthrow.
    destruct (shopsyCatch o env now context err wb) as [[r'|] w']; done.
Qed.

End Login.

(* ================================================================== *)
(** * Concrete runs *)
(* ================================================================== *)

Module Scenarios.
Import Buf Js.

(** ** Stand-ins for the platform *)

(** Small stand-ins for the platform's primitives, enough to run the code:
    the derived key mixes salt and passphrase, the key stream mixes key and
    IV, the tag mixes key and cipher text. *)
Definition demoPrimitives : NodeCrypto.Primitives := {|
  NodeCrypto.pbkdf2_stream := fun pw salt _ _ i =>
    byte_xor (nth i salt x2a) (nth i (String.list_byte_of_string pw) x5c);
  NodeCrypto.ctr_keystream := fun key iv i =>
    byte_xor (nth i key x00) (nth i iv x36);
  NodeCrypto.gcm_tag_stream := fun key _ ct i =>
    byte_xor (nth i key x00) (nth i ct x01);
|}.

(** An archiver over one-file profiles. *)
Definition demoArchiver : ProfileStore.Archiver := {|
  ProfileStore.zipFolder := fun t => default [] (t !! "Cookies");
  ProfileStore.unzip := fun b => Some {[ "Cookies" := b ]};
|}.

(** Four device descriptors in the shape of Playwright's. *)
Definition demoDevices : Fingerprint.Devices := {|
  Fingerprint.Pixel_5 :=
    Fingerprint.mkDevice "Mozilla/5.0 (Linux; Android 11; Pixel 5)"
      (Fingerprint.mkViewport 393 727) (QArith_base.Qmake 11 4) true true;
  Fingerprint.Pixel_7 :=
    Fingerprint.mkDevice "Mozilla/5.0 (Linux; Android 14; Pixel 7)"
      (Fingerprint.mkViewport 412 839) (QArith_base.Qmake 21 8) true true;
  Fingerprint.Samsung_Galaxy_S20_Ultra :=
    Fingerprint.mkDevice "Mozilla/5.0 (Linux; Android 10; SM-G988U)"
      (Fingerprint.mkViewport 412 915) (QArith_base.Qmake 7 2) true true;
  Fingerprint.iPhone_12 :=
    Fingerprint.mkDevice "Mozilla/5.0 (iPhone; CPU iPhone OS 14_4 like Mac OS X)"
      (Fingerprint.mkViewport 390 664) (QArith_base.Qmake 3 1) true true;
|}.

(** A random source: byte [i] is [i] modulo 256. *)
Definition demoEntropy : NodeCrypto.Entropy := fun i => byte_of_N (N.of_nat i mod 256).

(** ** The profile vault *)

Definition vaultWorld : ProfileStore.World := {|
  ProfileStore.globalPassphrase := Some "p1";
  ProfileStore.files := ∅;
  ProfileStore.dirs :=
    {[ "data/profiles/flipkart/acc1/userDataDir" := {[ "Cookies" := [x10; x20; x30] ]} ]};
|}.

Definition vaultSaved : Result string * ProfileStore.World * NodeCrypto.Entropy :=
  @ProfileStore.saveProfileToDisk demoPrimitives demoArchiver
    "flipkart" " Acc1 " vaultWorld demoEntropy.


(** The tree that was saved. *)
Definition vaultTree : ProfileStore.Tree := {[ "Cookies" := [x10; x20; x30] ]}.

(** A run of [ProfileStore.restore_after_save] on the same profile. *)
Lemma restore_after_save_witness :
  @ProfileStore.unzip demoArchiver (@ProfileStore.zipFolder demoArchiver vaultTree)
    = Some vaultTree /\
  ProfileStore.dirs vaultWorld !! "data/profiles/flipkart/acc1/userDataDir"
    = Some vaultTree /\
  exists w2,
    @ProfileStore.restoreProfileFromDisk demoPrimitives demoArchiver
      "flipkart" " Acc1 " vaultSaved.1.2
      = (Ok "data/profiles/flipkart/acc1/userDataDir", w2) /\
    ProfileStore.dirs w2 !! "data/profiles/flipkart/acc1/userDataDir" = Some vaultTree.
Proof.
  split; [vm_compute; reflexivity|]. split; [vm_compute; reflexivity|].
  apply (@ProfileStore.restore_after_save demoPrimitives demoArchiver
           "flipkart" " Acc1 " vaultWorld vaultSaved.1.2 demoEntropy vaultSaved.2
           "data/encrypted/flipkart/acc1.zip.enc" vaultTree);
    vm_compute; reflexivity.
Defined.

(** The backup that was written. *)
Definition vaultBackup : bytes :=
  Eval vm_compute in
    default [] (ProfileStore.files vaultSaved.1.2 !! "data/encrypted/flipkart/acc1.zip.enc").

(** A run of [ProfileStore.restore_altered_tag_rejected]: the tag of the
    backup is overwritten with zeros. *)
Lemma restore_altered_tag_rejected_witness :
  ProfileStore.files vaultSaved.1.2 !! "data/encrypted/flipkart/acc1.zip.enc"
    = Some vaultBackup /\
  replicate 16 x00 <> subarray vaultBackup 28 44 /\
  @ProfileStore.restoreProfileFromDisk demoPrimitives demoArchiver "flipkart" " Acc1 "
    (ProfileStore.with_files vaultSaved.1.2
       (<["data/encrypted/flipkart/acc1.zip.enc" :=
            subarray vaultBackup 0 28 ++ replicate 16 x00 ++ subarray_from vaultBackup 44]>
          (ProfileStore.files vaultSaved.1.2))) =
    (Throw NodeCrypto.errAuth,
     ProfileStore.with_files vaultSaved.1.2
       (<["data/encrypted/flipkart/acc1.zip.enc" :=
            subarray vaultBackup 0 28 ++ replicate 16 x00 ++ subarray_from vaultBackup 44]>
          (ProfileStore.files vaultSaved.1.2))).
Proof.
  split; [vm_compute; reflexivity|]. split; [vm_compute; discriminate|].
  apply (@ProfileStore.restore_altered_tag_rejected demoPrimitives demoArchiver
           "flipkart" " Acc1 " vaultWorld vaultSaved.1.2 demoEntropy vaultSaved.2
           "data/encrypted/flipkart/acc1.zip.enc" vaultBackup (replicate 16 x00)).
  - vm_compute. reflexivity.
  - vm_compute. reflexivity.
  - reflexivity.
  - vm_compute. discriminate.
Defined.

(** ** The vault's encryption *)

Definition demoData : bytes := [x10; x20; x30].

Definition demoEncrypted : Crypto.EncryptedData :=
  Eval vm_compute in
    match (@Crypto.encryptWithPassphrase demoPrimitives demoData "p1" demoEntropy).1 with
    | Ok r => r
    | Throw _ => Crypto.mkEncrypted "" "" "" ""
    end.

(** A run of [Crypto.decrypt_altered_tag_rejected]: the tag is overwritten
    with zeros. *)
Lemma decrypt_altered_tag_rejected_witness :
  (@Crypto.encryptWithPassphrase demoPrimitives demoData "p1" demoEntropy).1
    = Ok demoEncrypted /\
  replicate 16 x00 <> fromHex (Crypto.authTag demoEncrypted) /\
  @Crypto.decryptWithPassphrase demoPrimitives
    {| Crypto.iv := Crypto.iv demoEncrypted;
       Crypto.authTag := toHex (replicate 16 x00);
       Crypto.ciphertext := Crypto.ciphertext demoEncrypted;
       Crypto.salt := Crypto.salt demoEncrypted |} "p1"
    = Throw NodeCrypto.errAuth.
Proof.
  split; [vm_compute; reflexivity|]. split; [vm_compute; discriminate|].
  apply (@Crypto.decrypt_altered_tag_rejected demoPrimitives
           demoData "p1" demoEntropy demoEncrypted (replicate 16 x00)).
  - vm_compute. reflexivity.
  - reflexivity.
  - vm_compute. discriminate.
Defined.

(** A run of [Crypto.decrypt_other_passphrase_rejected]: encrypted under
    ["p1"], opened with ["p2"]. *)
Lemma decrypt_other_passphrase_rejected_witness :
  (@Crypto.encryptWithPassphrase demoPrimitives demoData "p1" demoEntropy).1
    = Ok demoEncrypted /\
  @Crypto.decryptWithPassphrase demoPrimitives demoEncrypted "p2"
    = Throw NodeCrypto.errAuth.
Proof.
  split; [vm_compute; reflexivity|].
  apply (@Crypto.decrypt_other_passphrase_rejected demoPrimitives
           demoData "p1" "p2" demoEntropy demoEncrypted).
  - vm_compute. reflexivity.
  - vm_compute. discriminate.
Defined.

(** ** Cookies *)

(** A cookie of another site, bound to its host. *)
Definition unrelatedCookie : obj :=
  {[ "name" := JStr "pref"; "value" := JStr "1";
     "domain" := JStr "example.com"; "hostOnly" := JBool true ]}.

(** A cookie whose domain contains the source domain without ending in it. *)
Definition lookalikeCookie : obj :=
  {[ "name" := JStr "sid"; "value" := JStr "x";
     "domain" := JStr "flipkart.com.example.org" ]}.

(** A session cookie of the source site. *)
Definition flipkartCookie : obj :=
  {[ "name" := JStr "SN"; "value" := JStr "abc";
     "domain" := JStr "www.flipkart.com"; "session" := JBool true ]}.

(** C5, counterexample. The cookie of another site loses its [hostOnly]
    flag, so it is not returned unchanged; and a domain that contains the
    source domain without ending in it is rewritten. Either refutes the
    claim as worded. *)
Lemma adapt_spec_claim_fails :
  Cookies.adaptCookiesForShopsy [unrelatedCookie; lookalikeCookie]
    = Ok [ {[ "name" := JStr "pref"; "value" := JStr "1";
              "domain" := JStr "example.com" ]} ;
           {[ "name" := JStr "sid"; "value" := JStr "x";
              "domain" := JStr ".shopsy.in" ]} ] /\
  Cookies.suffixMatches unrelatedCookie = false /\
  Cookies.suffixMatches lookalikeCookie = false /\
  (Cookies.adapt_spec_claim -> False).
Proof.
  split; [vm_compute; reflexivity|].
  split; [reflexivity|]. split; [reflexivity|].
  intros Hclaim.
  assert (Cookies.adaptCookiesForShopsy [unrelatedCookie]
          = Ok [delete "hostOnly" unrelatedCookie]) as Hrun
    by (vm_compute; reflexivity).
  specialize (Hclaim _ _ Hrun).
  inversion Hclaim as [|c c' l l' Hhead _]; subst.
  unfold Cookies.adapted_as_specified in Hhead.
  change (Cookies.suffixMatches unrelatedCookie) with false in Hhead.
  cbv iota in Hhead.
  apply (f_equal (fun m : obj => m !! "hostOnly")) in Hhead.
  vm_compute in Hhead. discriminate Hhead.
Qed.

(** A run of [Cookies.adaptCookiesForShopsy_adapted]. *)
Lemma adaptCookiesForShopsy_adapted_witness :
  Cookies.adaptCookiesForShopsy [flipkartCookie; unrelatedCookie]
    = Ok [ {[ "name" := JStr "SN"; "value" := JStr "abc";
              "domain" := JStr ".shopsy.in" ]} ;
           {[ "name" := JStr "pref"; "value" := JStr "1";
              "domain" := JStr "example.com" ]} ] /\
  Forall2 Cookies.adapted [flipkartCookie; unrelatedCookie]
    [ {[ "name" := JStr "SN"; "value" := JStr "abc";
         "domain" := JStr ".shopsy.in" ]} ;
      {[ "name" := JStr "pref"; "value" := JStr "1";
         "domain" := JStr "example.com" ]} ].
Proof.
  split; [vm_compute; reflexivity|].
  apply Cookies.adaptCookiesForShopsy_adapted. vm_compute. reflexivity.
Defined.

(** ** Fingerprints *)


(** ** The account store *)

Definition acc1 : Accounts.Account :=
  {| Accounts.id := "acc1";
     Accounts.props :=
       {[ "platform" := JStr "shopsy"; "loginType" := JStr "mobile";
          "identifier" := JStr "9999999999"; "status" := JStr "Healthy";
          "createdAt" := JStr "2026-10-01T08:00:00.000Z";
          "updatedAt" := JStr "2026-10-01T08:00:00.000Z" ]} |}.

(** A healthy disk that holds an empty document. *)
Definition emptyStore : Accounts.Store :=
  Accounts.mkStore (Some (Accounts.Parsed (Accounts.RawObject (Some []))))
    None true true false (Ok tt) 0 [].

(** A healthy disk that holds [acc1]. *)
Definition store1 : Accounts.Store :=
  Accounts.mkStore (Some (Accounts.Parsed (Accounts.RawObject (Some [acc1]))))
    None true true false (Ok tt) 0 [].

(** The same document on a disk that refuses every write. *)
Definition readOnlyStore : Accounts.Store :=
  Accounts.mkStore (Some (Accounts.Parsed (Accounts.RawObject (Some [acc1]))))
    None false true false (Ok tt) 0 [].

Definition now1 : string := "2026-11-03T10:00:00.000Z".
Definition now2 : string := "2026-11-03T10:05:00.000Z".
Definition now3 : string := "2026-11-03T10:10:00.000Z".
Definition now4 : string := "2026-11-03T10:15:00.000Z".

(** [{ id, platform: 'flipkart' }] *)
Definition partialWithId (i : string) : Accounts.Account :=
  {| Accounts.id := i; Accounts.props := {[ "platform" := JStr "flipkart" ]} |}.

(** A record brought in with its own time stamp. *)
Definition importedAccount : Accounts.Account :=
  {| Accounts.id := "acc2";
     Accounts.props :=
       {[ "platform" := JStr "flipkart";
          "updatedAt" := JStr "2020-01-01T00:00:00.000Z" ]} |}.

(** [{ id: ' ACC1 ', platform: 'shopsy', assignedTo: 'asha' }] *)
Definition assignment : Accounts.Account :=
  {| Accounts.id := " ACC1 ";
     Accounts.props := {[ "platform" := JStr "shopsy"; "assignedTo" := JStr "asha" ]} |}.

(** A property of the record a call resolved with. *)
Definition resolvedProp (r : Result Accounts.Account) (key : string) : option jsval :=
  match r with
  | Ok a => Accounts.props a !! key
  | Throw _ => None
  end.

(** C6, counterexample. A new record whose partial carries an [updatedAt]
    keeps that value: it is not stamped with the current time. *)
Lemma upsert_spec_claim_fails :
  (Accounts.loadAccounts emptyStore).1 = Ok [] /\
  resolvedProp (Accounts.upsertAccount importedAccount now1 emptyStore).1 "updatedAt"
    = Some (JStr "2020-01-01T00:00:00.000Z") /\
  (Accounts.upsert_spec_claim -> False).
Proof.
  split; [reflexivity|]. split; [vm_compute; reflexivity|].
  intros Hclaim.
  destruct (Accounts.upsertAccount importedAccount now1 emptyStore) as [r st] eqn:Hrun.
  destruct r as [result|e]; [|vm_compute in Hrun; discriminate Hrun].
  destruct (Hclaim importedAccount now1 emptyStore [] result) as [_ Hstamp].
  - reflexivity.
  - by rewrite Hrun.
  - assert (Accounts.props result !! "updatedAt"
            = Some (JStr "2020-01-01T00:00:00.000Z")) as Hkept.
    { vm_compute in Hrun. injection Hrun as <- _. vm_compute. reflexivity. }
    rewrite Hkept in Hstamp. discriminate Hstamp.
Qed.

(** A run of [Accounts.upsertAccount_merges]: assigning an operator to the
    stored [acc1] keeps its status and stamps the time. *)
Lemma upsertAccount_merges_witness :
  (Accounts.loadAccounts store1).1 = Ok [acc1] /\
  exists result,
    (Accounts.upsertAccount assignment now1 store1).1 = Ok result /\
    Accounts.props result !! "assignedTo" = Some (JStr "asha") /\
    Accounts.props result !! "status" = Some (JStr "Healthy") /\
    Accounts.props result !! "updatedAt" = Some (JStr now1).
Proof.
  split; [reflexivity|].
  destruct (Accounts.upsertAccount_merges assignment now1 store1 [acc1] eq_refl)
    as (result & Hrun & Hmerged).
  exists result. split; [exact Hrun|].
  change (list_find (Accounts.hasId (Str.normalizeId (Accounts.id assignment))) [acc1])
    with (Some (0, acc1)) in Hmerged.
  destruct Hmerged as (_ & Hgiven & Hkept & Hstamp).
  split; [|split].
  - apply Hgiven; [reflexivity | discriminate].
  - rewrite Hkept; [reflexivity | reflexivity | discriminate].
  - exact Hstamp.
Defined.

(** Two runs from the empty document. *)
Definition afterCaseChange : Accounts.Store :=
  (Accounts.upsertAccount (partialWithId "ABC") now2
     (Accounts.upsertAccount (partialWithId "abc") now1 emptyStore).2).2.

Definition afterPaddedIds : Accounts.Store :=
  (Accounts.upsertAccount (partialWithId " abc") now4
     (Accounts.upsertAccount (partialWithId "abc") now3
        (Accounts.upsertAccount (partialWithId " abc") now2
           (Accounts.upsertAccount (partialWithId "abc") now1 emptyStore).2).2).2).2.

(** C8, the failing runs. Upserting ["abc"] and then ["ABC"] leaves one
    record whose stored id is ["ABC"], which is not its normal form; and
    upserting ["abc"], [" abc"], ["abc"], [" abc"] leaves two records with
    the same id. *)
Theorem upsert_update_stores_raw_id :
  Accounts.id <$> Accounts.storedAccounts afterCaseChange = ["ABC"] /\
  Str.normalizeId "ABC" = "abc" /\
  Accounts.id <$> Accounts.storedAccounts afterPaddedIds = [" abc"; " abc"] /\
  Str.normalizeId " abc" = "abc".
Proof. repeat split; vm_compute; reflexivity. Qed.


(** ** Login flows and the health probe *)

Import Automation.

Definition world1 : World :=
  mkWorld store1 BrowserManager.empty BrowserManager.empty [].

(** An unattended login of [acc1]. *)
Definition unattended : Login.LoginOptions :=
  Login.mkOptions "acc1" "9999999999" false false.

(** A login of [acc1] that keeps the window open. *)
Definition attended : Login.LoginOptions :=
  Login.mkOptions "acc1" "9999999999" false true.

(** Shopsy: the page loads, and the operator closes the window while the
    flow waits for the login to complete. *)
Definition shopsyClosedWhileWaiting : Login.ShopsyEnv :=
  Login.mkShopsyEnv (Ok 1) (Done tt) (Done true) (Done tt) (Done 0)
    ClosedByOperator (Done tt) (Done tt) (Ok tt).

(** Flipkart: the code arrives from the shared mailbox and is typed in, and
    the operator closes the window while the flow waits for the login to
    complete. *)
Definition flipkartClosedWhileWaiting : Login.FlipkartEnv :=
  Login.mkFlipkartEnv false (Ok 1) (Done tt) false true (Done tt)
    (fun _ => Login.mkRound None (Some "123456") (Done tt) (Done tt))
    ClosedByOperator (Done tt) (Done 7) (Done tt) (Ok tt).

(** C9, the failing run. With the window closed by the operator during the
    wait, [loginShopsy] throws the error on and leaves [acc1] stored with
    status [Error] and the error text; [loginFlipkart], in the same
    situation, returns the cancelled result and leaves the stored status as
    it was. *)
Theorem loginShopsy_operator_close_is_error :
  (Login.loginShopsy unattended shopsyClosedWhileWaiting now1 world1).1
    = Throw errTargetClosed /\
  Accounts.storedProp
    (store (Login.loginShopsy unattended shopsyClosedWhileWaiting now1 world1).2)
    "acc1" "status" = Some (JStr "Error") /\
  Accounts.storedProp
    (store (Login.loginShopsy unattended shopsyClosedWhileWaiting now1 world1).2)
    "acc1" "errorCode"
    = Some (JStr "Error: Target page, context or browser has been closed") /\
  (Login.loginFlipkart unattended flipkartClosedWhileWaiting now1 world1).1
    = Ok (Login.mkResult "cancelled" "Browser closed by user") /\
  Accounts.storedProp
    (store (Login.loginFlipkart unattended flipkartClosedWhileWaiting now1 world1).2)
    "acc1" "status" = Some (JStr "Healthy").
Proof. repeat split; vm_compute; reflexivity. Qed.

(** Flipkart: the operator closes the window before the code can be typed
    in; the mailbox keeps handing out the code. *)
Definition flipkartClosedBeforeCode : Login.FlipkartEnv :=
  Login.mkFlipkartEnv false (Ok 1) (Done tt) false true (Done tt)
    (fun _ => Login.mkRound None (Some "123456") ClosedByOperator (Done tt))
    (Done tt) (Done tt) (Done 7) (Done tt) (Ok tt).

(** In that run the inner [try]/[catch] around the typing swallows the
    error of the closed window three times, the flow then throws its own
    "OTP Fetching Failed" error, whose message does not speak of a closed
    target, and the account is stored with status [Error]. *)
Lemma loginFlipkart_close_before_code_is_error :
  (Login.loginFlipkart unattended flipkartClosedBeforeCode now1 world1).1
    = Throw Login.errOtpFailed /\
  Accounts.storedProp
    (store (Login.loginFlipkart unattended flipkartClosedBeforeCode now1 world1).2)
    "acc1" "status" = Some (JStr "Error").
Proof. split; vm_compute; reflexivity. Qed.

(** Flipkart: the session is still valid, and the window stays open. *)
Definition flipkartAlreadyLoggedIn : Login.FlipkartEnv :=
  Login.mkFlipkartEnv false (Ok 1) (Done tt) true false (Done tt)
    (fun _ => Login.mkRound None None (Done tt) (Done tt))
    (Done tt) (Done tt) (Done 7) (Done tt) (Ok tt).

(** The world in which the login flow has left its window open. *)
Definition withLoginWindow : World :=
  (Login.loginFlipkart attended flipkartAlreadyLoggedIn now1 world1).2.

(** The probe finds the profile and a page that asks to sign in. *)
Definition probeSignedOut : Health.ProbeEnv :=
  Health.mkProbe true (Ok 2) (Done "<a>Login & Signup</a><a>Cart</a>") (Done tt).

(** C4, the failing run. The login flow registers its live session as
    ["acc1-flipkart-login"]; the prober asks for keys that start with
    ["flipkart-acc1"] or ["shopsy-acc1"], finds none, starts a headless
    browser on the profile directory in use and reports what that page
    shows. *)
Theorem checkAccountHealth_misses_login_session :
  BrowserManager.contexts (browsers withLoginWindow) = [("acc1-flipkart-login", 1)] /\
  BrowserManager.isActive "flipkart-acc1" (browsers withLoginWindow) = false /\
  BrowserManager.isActive "shopsy-acc1" (browsers withLoginWindow) = false /\
  (Health.checkAccountHealth Fingerprint.flipkart "acc1" probeSignedOut withLoginWindow).1
    = Health.mkHealth "ActionNeeded" "Session may be expired" /\
  launches
    (Health.checkAccountHealth Fingerprint.flipkart "acc1" probeSignedOut withLoginWindow).2
    = [ mkLaunch "data/profiles/flipkart/acc1/userDataDir" false 1;
        mkLaunch "data/profiles/flipkart/acc1/userDataDir" true 2 ].
Proof. repeat split; vm_compute; reflexivity. Qed.

(** Shopsy: every step goes through. *)
Definition shopsySmooth : Login.ShopsyEnv :=
  Login.mkShopsyEnv (Ok 1) (Done tt) (Done true) (Done tt) (Done 0)
    (Done tt) (Done tt) (Done tt) (Ok tt).

(** A run of [Login.loginShopsy_returns_success_only]. *)
Lemma loginShopsy_returns_success_only_witness :
  (Login.loginShopsy unattended shopsySmooth now1 world1).1
    = Ok (Login.mkResult "success" "Login completed and profile saved") /\
  Login.status (Login.mkResult "success" "Login completed and profile saved") = "success".
Proof.
  split; [vm_compute; reflexivity|].
  apply (Login.loginShopsy_returns_success_only unattended shopsySmooth now1 world1).
  vm_compute. reflexivity.
Defined.


(** The world in which a health probe of [acc1] is under way. *)
Definition withHealthProbe : World :=
  set_browsers world1 (BrowserManager.register "flipkart-acc1-health" 3 (browsers world1)).


End Scenarios.

(* ================================================================== *)
(** * Facts about the string methods *)
(* ================================================================== *)

Module StrFacts.
Import Str.

Lemma lower_char_idem (c : ascii) : lower_char (lower_char c) = lower_char c.
Proof. destruct c as [[] [] [] [] [] [] [] []]; reflexivity. Qed.

Lemma is_space_lower_char (c : ascii) : is_space (lower_char c) = is_space c.
Proof. destruct c as [[] [] [] [] [] [] [] []]; reflexivity. Qed.

Lemma toLowerCase_idem (s : string) : toLowerCase (toLowerCase s) = toLowerCase s.
Proof. induction s as [|c s IH]; simpl; [done|]. by rewrite lower_char_idem, IH. Qed.

Lemma is_empty_toLowerCase (s : string) : is_empty (toLowerCase s) = is_empty s.
Proof. by destruct s. Qed.

Lemma toLowerCase_trimStart (s : string) :
  toLowerCase (trimStart s) = trimStart (toLowerCase s).
Proof.
  induction s as [|c s IH]; [done|]. cbn [trimStart toLowerCase].
  rewrite is_space_lower_char. by destruct (is_space c).
Qed.

Lemma toLowerCase_trimEnd (s : string) :
  toLowerCase (trimEnd s) = trimEnd (toLowerCase s).
Proof.
  induction s as [|c s IH]; [done|]. cbn [trimEnd toLowerCase].
  rewrite is_space_lower_char, <- IH, is_empty_toLowerCase.
  by destruct (is_space c && is_empty (trimEnd s)).
Qed.

Lemma toLowerCase_trim (s : string) : toLowerCase (trim s) = trim (toLowerCase s).
Proof. unfold trim. by rewrite toLowerCase_trimEnd, toLowerCase_trimStart. Qed.

(** The normal form of an id is in lower case already. *)
Lemma toLowerCase_normalizeId (s : string) :
  toLowerCase (normalizeId s) = normalizeId s.
Proof. unfold normalizeId. by rewrite toLowerCase_trim, toLowerCase_idem. Qed.

(** [p] is a prefix of [p + s]. *)
Lemma startsWith_append (p s : string) : startsWith (p +:+ s) p = true.
Proof.
  unfold startsWith. induction p as [|c p IH]; simpl; [by destruct s|].
  destruct (Ascii.ascii_dec c c); [done|congruence].
Qed.

End StrFacts.

(* ================================================================== *)
(** * Facts about the account store *)
(* ================================================================== *)

Module AccountsFacts.
Import Js Accounts.

(** ** What reaches the disk *)

Lemma saveAccounts_flags (data : list Account) (st : Store) :
  canWrite (saveAccounts data st).2 = canWrite st /\
  canMove (saveAccounts data st).2 = canMove st.
Proof.
  unfold saveAccounts, catch_, then_, queueTail, saveOperation, catch_, pushAccounts.
  destruct (saveQueue st) as [[]|]; [|done].
  destruct (canWrite st) eqn:Hw; [|done]. cbn [canMove set_tmpFile].
  destruct (canMove st) eqn:Hm; [|done]. cbn [pushThrows set_tmpFile set_file].
  by destruct (pushThrows st).
Qed.

(** On a disk that takes the write and the rename, behind a settled queue,
    the accounts file holds the serialized list afterwards. *)
Lemma saveAccounts_written (data : list Account) (st : Store) :
  saveQueue st = Ok tt -> canWrite st = true -> canMove st = true ->
  file (saveAccounts data st).2
    = Some (Parsed (RawObject (Some (jsonAccount <$> data)))).
Proof.
  intros Hq Hw Hm.
  unfold saveAccounts, catch_, then_, queueTail, saveOperation, catch_, pushAccounts.
  rewrite Hq, Hw. cbn [canMove set_tmpFile]. rewrite Hm.
  cbn [pushThrows set_tmpFile set_file]. by destruct (pushThrows st).
Qed.

(** A load that resolved went through a resolved queue. *)
Lemma loadAccounts_ok_inv (st : Store) (data : list Account) :
  (loadAccounts st).1 = Ok data -> saveQueue st = Ok tt.
Proof.
  unfold loadAccounts, then_, queueTail.
  destruct (saveQueue st) as [[]|e]; [done|]. by cbn.
Qed.

(** Loading a keyed document behind a settled queue returns its records
    and writes nothing. *)
Lemma loadAccounts_keyed (st : Store) (accounts : list Account) :
  saveQueue st = Ok tt ->
  file st = Some (Parsed (RawObject (Some accounts))) ->
  loadAccounts st = (Ok accounts, st).
Proof.
  intros Hq Hf. unfold loadAccounts, then_, queueTail, loadOperation.
  rewrite Hq, Hf. f_equal. destruct st; cbn in *. by subst.
Qed.

Lemma load_after_save (data : list Account) (st : Store) :
  saveQueue st = Ok tt -> canWrite st = true -> canMove st = true ->
  (loadAccounts (saveAccounts data st).2).1 = Ok (jsonAccount <$> data).
Proof.
  intros Hq Hw Hm.
  by rewrite (loadAccounts_keyed _ (jsonAccount <$> data)
                (saveAccounts_queue data st) (saveAccounts_written data st Hq Hw Hm)).
Qed.

(** ** Lookups in a serialized list *)

(** Serializing keeps ids, so a lookup by id finds the same position. *)
Lemma list_find_json (wanted : string) (l : list Account) :
  list_find (hasId wanted) (jsonAccount <$> l)
    = prod_map (@Datatypes.id nat) jsonAccount <$> list_find (hasId wanted) l.
Proof. by rewrite list_find_fmap. Qed.

(** What serialization keeps of a property. *)
Lemma lookup_jsonAccount (a : Account) (k : string) :
  props (jsonAccount a) !! k =
    match props a !! k with
    | Some v => if is_undefined v then None else Some (jsonValue v)
    | None => None
    end.
Proof.
  unfold jsonAccount. cbn [props]. rewrite lookup_fmap, map_lookup_filter.
  destruct (props a !! k) as [v|]; [|done]. cbn.
  case_guard as Hg; destruct (is_undefined v); cbn; congruence.
Qed.

Lemma lookup_jsonAccount_str (a : Account) (k s : string) :
  props a !! k = Some (JStr s) -> props (jsonAccount a) !! k = Some (JStr s).
Proof. intros H. by rewrite lookup_jsonAccount, H. Qed.

Lemma lookup_jsonAccount_None (a : Account) (k : string) :
  props a !! k = None -> props (jsonAccount a) !! k = None.
Proof. intros H. by rewrite lookup_jsonAccount, H. Qed.

(** ** Where an upsert leaves its record *)

(** In the list that [upsertIn] hands to [saveAccounts], a lookup of the
    same id finds the record it returns: always for a new record, and for an
    updated one when its id has no white space around it. *)
Lemma upsertIn_found (account : Account) (now : string) (data : list Account) :
  list_find (hasId (Str.normalizeId (id account))) data = None \/
  Str.trim (Str.toLowerCase (id account)) = Str.toLowerCase (id account) ->
  exists j,
    list_find (hasId (Str.normalizeId (id account))) (upsertIn account now data).2
      = Some (j, (upsertIn account now data).1).
Proof.
  intros Hcase. unfold upsertIn.
  destruct (list_find _ data) as [[i existing]|] eqn:Hfind; cbn [fst snd].
  - destruct Hcase as [Hnone|Htrim]; [done|].
    exists i. apply list_find_insert_Some. right; left.
    apply list_find_Some in Hfind as (Hi & _ & Hleast).
    split_and!; [done|done|by eapply lookup_lt_Some| |done].
    unfold hasId, Str.normalizeId. cbn [id]. by rewrite Htrim.
  - exists (length data). apply list_find_Some. split_and!.
    + by rewrite list_lookup_middle.
    + unfold hasId. cbn [id]. apply StrFacts.toLowerCase_normalizeId.
    + intros j y Hj Hlt. rewrite lookup_app_l in Hj by done.
      apply list_find_None in Hfind.
      by eapply (Forall_lookup_1 _ _ _ _ Hfind).
Qed.

(** Where [upsertAccount] leaves the store, when the document loaded. *)
Lemma upsertAccount_state (account : Account) (now : string) (st : Store)
    (data : list Account) :
  (loadAccounts st).1 = Ok data ->
  (upsertAccount account now st).2
    = (saveAccounts (upsertIn account now data).2 (loadAccounts st).2).2.
Proof.
  intros Hload. unfold upsertAccount. rewrite (then_loadAccounts _ _ _ Hload).
  destruct (upsertIn account now data) as [result data'].
  by rewrite then_saveAccounts.
Qed.

(** X11. On a disk that takes writes, a record that was upserted is found
    again: [getAccount] with the same id returns the record [upsertAccount]
    returned, as serialized, provided the record is new or the id has no
    white space around it. *)
Theorem upsert_then_getAccount (account : Account) (now : string) (st : Store)
    (data : list Account) :
  canWrite st = true -> canMove st = true ->
  (loadAccounts st).1 = Ok data ->
  list_find (hasId (Str.normalizeId (id account))) data = None \/
  Str.trim (Str.toLowerCase (id account)) = Str.toLowerCase (id account) ->
  (upsertAccount account now st).1 = Ok (upsertIn account now data).1 /\
  (getAccount (id account) (upsertAccount account now st).2).1
    = Ok (Some (jsonAccount (upsertIn account now data).1)).
Proof.
  intros Hw Hm Hload Hcase. split; [by apply upsertAccount_result|].
  rewrite (upsertAccount_state _ _ _ _ Hload).
  destruct (loadAccounts_flags st) as [Hw1 Hm1].
  unfold getAccount.
  rewrite (then_loadAccounts _ _ (jsonAccount <$> (upsertIn account now data).2)).
  2:{ apply load_after_save; [apply loadAccounts_queue|congruence|congruence]. }
  unfold resolved. cbn [fst]. rewrite list_find_json.
  destruct (upsertIn_found account now data Hcase) as [j ->]. done.
Qed.

(** ** Status updates, as stored *)

Lemma statusUpdate_state (accountId : string) (status : AccountStatus)
    (errorCode : option string) (now : string) (st : Store) (data : list Account)
    (i : nat) (a : Account) :
  (loadAccounts st).1 = Ok data ->
  list_find (hasId (Str.normalizeId accountId)) data = Some (i, a) ->
  (updateAccountStatus accountId status errorCode now st).2
    = (saveAccounts (<[i := applyStatus status errorCode now a]> data)
         (loadAccounts st).2).2.
Proof.
  intros Hload Hfind. unfold updateAccountStatus.
  by rewrite (then_loadAccounts _ _ _ Hload), Hfind.
Qed.

(** Replacing the record found by one with the same id keeps it found. *)
Lemma list_find_replace (wanted : string) (data : list Account) (i : nat)
    (a a' : Account) :
  list_find (hasId wanted) data = Some (i, a) ->
  id a' = id a ->
  list_find (hasId wanted) (<[i := a']> data) = Some (i, a').
Proof.
  intros (Hi & Hp & Hleast)%list_find_Some Hid.
  apply list_find_insert_Some. right; left.
  split_and!; [done|done|by eapply lookup_lt_Some| |done].
  unfold hasId in *. by rewrite Hid.
Qed.

(** A property of the record stored for [accountId] after a save of a list
    in which the lookup finds [a']. *)
Lemma storedProp_after_save (accountId key : string) (data : list Account)
    (i : nat) (a' : Account) (st : Store) :
  saveQueue st = Ok tt -> canWrite st = true -> canMove st = true ->
  list_find (hasId (Str.normalizeId accountId)) data = Some (i, a') ->
  storedProp (saveAccounts data st).2 accountId key = props (jsonAccount a') !! key.
Proof.
  intros Hq Hw Hm Hfind. unfold storedProp, storedAccounts.
  rewrite (saveAccounts_written data st Hq Hw Hm), list_find_json, Hfind. done.
Qed.

(** X6. What a status update leaves on a disk that takes writes: the record
    found for the id is stored with the new status and with [updatedAt] set
    to the current time; [Healthy] also stores [lastValidateAt] and drops
    [errorCode]; any other status stores a non-empty error code it was
    given. *)
Theorem updateAccountStatus_stored (accountId : string) (status : AccountStatus)
    (errorCode : option string) (now : string) (st : Store) (data : list Account)
    (i : nat) (a : Account) :
  canWrite st = true -> canMove st = true ->
  (loadAccounts st).1 = Ok data ->
  list_find (hasId (Str.normalizeId accountId)) data = Some (i, a) ->
  let st' := (updateAccountStatus accountId status errorCode now st).2 in
  storedProp st' accountId "status" = Some (JStr (statusName status)) /\
  storedProp st' accountId "updatedAt" = Some (JStr now) /\
  (status = Healthy ->
     storedProp st' accountId "errorCode" = None /\
     storedProp st' accountId "lastValidateAt" = Some (JStr now)) /\
  (status <> Healthy ->
     forall code, errorCode = Some code -> Str.is_empty code = false ->
       storedProp st' accountId "errorCode" = Some (JStr code)).
Proof.
  intros Hw Hm Hload Hfind. cbv zeta.
  rewrite (statusUpdate_state _ _ _ _ _ _ _ _ Hload Hfind).
  destruct (loadAccounts_flags st) as [Hw1 Hm1].
  assert (forall key,
    storedProp (saveAccounts (<[i := applyStatus status errorCode now a]> data)
                  (loadAccounts st).2).2 accountId key
    = props (jsonAccount (applyStatus status errorCode now a)) !! key) as Hstored.
  { intros key. apply (storedProp_after_save _ _ _ i);
      [apply loadAccounts_queue|congruence|congruence|].
    by apply (list_find_replace _ _ _ a). }
  rewrite !Hstored.
  pose proof (applyStatus_spec status errorCode now a) as Hspec. cbv zeta in Hspec.
  destruct Hspec as (_ & Hstatus & Hupd & Hrest).
  split; [by apply lookup_jsonAccount_str|].
  split; [by apply lookup_jsonAccount_str|].
  split.
  - intros ->. destruct Hrest as [Hcode Hval].
    split; [by apply lookup_jsonAccount_None | by apply lookup_jsonAccount_str].
  - intros Hne code -> Hcode.
    destruct status; try done; destruct Hrest as [_ Hrest];
      rewrite Hcode in Hrest; by apply lookup_jsonAccount_str.
Qed.

(** What [updateLastLogin] leaves on a disk that takes writes. *)
Lemma updateLastLogin_stored (accountId now : string) (st : Store)
    (data : list Account) (i : nat) (a : Account) :
  canWrite st = true -> canMove st = true ->
  (loadAccounts st).1 = Ok data ->
  list_find (hasId (Str.normalizeId accountId)) data = Some (i, a) ->
  let st' := (updateLastLogin accountId now st).2 in
  (updateLastLogin accountId now st).1 = Ok tt /\
  storedProp st' accountId "status" = Some (JStr "Healthy") /\
  storedProp st' accountId "lastLoginAt" = Some (JStr now) /\
  storedProp st' accountId "lastValidateAt" = Some (JStr now) /\
  storedProp st' accountId "updatedAt" = Some (JStr now) /\
  storedProp st' accountId "errorCode" = None.
Proof.
  intros Hw Hm Hload Hfind. cbv zeta. unfold updateLastLogin.
  rewrite (then_loadAccounts _ _ _ Hload), Hfind.
  split; [apply saveAccounts_resolves|].
  destruct (loadAccounts_flags st) as [Hw1 Hm1].
  set (a' := {| id := id a; props := _ |}).
  assert (forall key,
    storedProp (saveAccounts (<[i := a']> data) (loadAccounts st).2).2 accountId key
    = props (jsonAccount a') !! key) as Hstored.
  { intros key. apply (storedProp_after_save _ _ _ i);
      [apply loadAccounts_queue|congruence|congruence|].
    by apply (list_find_replace _ _ _ a). }
  rewrite !Hstored. unfold a'.
  split_and!; (apply lookup_jsonAccount_str || apply lookup_jsonAccount_None);
    cbn [props];
    repeat first
      [ rewrite lookup_delete_eq | rewrite lookup_insert_eq
      | rewrite lookup_delete_ne by done | rewrite lookup_insert_ne by done ];
    reflexivity.
Qed.

(** ** Which records there are *)

(** Loading changes no id: neither the first write of an empty document nor
    the rewrite of a legacy one does. *)
Lemma loadAccounts_ids (st : Store) :
  id <$> storedAccounts (loadAccounts st).2 = id <$> storedAccounts st.
Proof.
  unfold loadAccounts, then_, queueTail, loadOperation, then_, writeAccountsFile,
    resolved, storedAccounts.
  destruct (saveQueue st) as [[]|]; [|done].
  destruct (file st) as [[|[raw|[accounts|]]]|] eqn:Hf;
    try destruct (canWrite st);
    cbn [snd file set_saveQueue set_file]; rewrite ?Hf; try done.
  by rewrite <- list_fmap_compose.
Qed.

Lemma loadAccounts_data_ids (st : Store) (data : list Account) :
  (loadAccounts st).1 = Ok data ->
  id <$> data = id <$> storedAccounts st.
Proof.
  unfold loadAccounts, then_, queueTail, loadOperation, then_, writeAccountsFile,
    resolved, storedAccounts.
  destruct (saveQueue st) as [[]|]; [|done].
  destruct (file st) as [[|[raw|[accounts|]]]|] eqn:Hf; cbn [fst]; try done;
    try (by intros [= <-]);
    destruct (canWrite st); cbn [fst]; try done; by intros [= <-].
Qed.

(** A save stores the ids it was given, or leaves the file alone. *)
Lemma saveAccounts_ids (data : list Account) (st : Store) :
  id <$> storedAccounts (saveAccounts data st).2 = id <$> data \/
  file (saveAccounts data st).2 = file st.
Proof.
  unfold saveAccounts, catch_, then_, queueTail, saveOperation, catch_, pushAccounts,
    storedAccounts.
  destruct (saveQueue st) as [[]|]; [|by right].
  destruct (canWrite st); [|by right]. cbn [canMove set_tmpFile].
  destruct (canMove st); [|by right]. cbn [pushThrows set_tmpFile set_file].
  left. destruct (pushThrows st);
    cbn [snd file tmpFile set_saveQueue console_error add_push set_file set_tmpFile];
    by rewrite <- list_fmap_compose.
Qed.

Lemma storedAccounts_file (st st' : Store) :
  file st' = file st -> storedAccounts st' = storedAccounts st.
Proof. unfold storedAccounts. by intros ->. Qed.

(** Saving a list in which one record was replaced by one of the same id
    changes no id. *)
Lemma save_replaced_ids (data : list Account) (i : nat) (a a' : Account) (st : Store) :
  data !! i = Some a -> id a' = id a ->
  id <$> data = id <$> storedAccounts st ->
  id <$> storedAccounts (saveAccounts (<[i := a']> data) st).2
    = id <$> storedAccounts st.
Proof.
  intros Hi Hid Hdata.
  destruct (saveAccounts_ids (<[i := a']> data) st) as [-> | Hfile].
  - rewrite list_fmap_insert, Hid, <- Hdata. apply list_insert_id.
    by rewrite list_lookup_fmap, Hi.
  - by rewrite (storedAccounts_file _ _ Hfile).
Qed.


(** X13. [deleteAccount] removes exactly the first record that the lookup
    finds and answers [true]; when the lookup finds none it answers [false]
    and does no more than a load does. *)
Theorem deleteAccount_removes_first (accountId : string) (st : Store)
    (data : list Account) :
  canWrite st = true -> canMove st = true ->
  (loadAccounts st).1 = Ok data ->
  match list_find (hasId (Str.normalizeId accountId)) data with
  | Some (i, _) =>
      (deleteAccount accountId st).1 = Ok true /\
      storedAccounts (deleteAccount accountId st).2 = jsonAccount <$> delete i data
  | None =>
      (deleteAccount accountId st).1 = Ok false /\
      (deleteAccount accountId st).2 = (loadAccounts st).2
  end.
Proof.
  intros Hw Hm Hload. unfold deleteAccount.
  rewrite (then_loadAccounts _ _ _ Hload).
  destruct (list_find _ data) as [[i a]|]; [|done].
  rewrite then_saveAccounts. split; [done|].
  unfold resolved. cbn [snd]. unfold storedAccounts.
  destruct (loadAccounts_flags st) as [Hw1 Hm1].
  rewrite saveAccounts_written; [done|apply loadAccounts_queue|congruence|congruence].
Qed.

(** The disk takes writes and renames again. *)
Definition diskRecovers (st : Store) : Store :=
  mkStore (file st) (tmpFile st) true true (pushThrows st)
          (saveQueue st) (pushes st) (console st).

(** X14. A failed write does not block the queue: whatever happened to one
    [saveAccounts], the next one persists its list as soon as the disk takes
    writes again. *)
Theorem failed_write_does_not_block (first next : list Account) (st : Store) :
  file (saveAccounts next (diskRecovers (saveAccounts first st).2)).2
    = Some (Parsed (RawObject (Some (jsonAccount <$> next)))).
Proof.
  apply saveAccounts_written; [|done|done].
  unfold diskRecovers. cbn [saveQueue]. apply saveAccounts_queue.
Qed.

End AccountsFacts.

(* ================================================================== *)
(** * The cookie cache ([src/cookies.ts]) *)
(* ================================================================== *)

Module CookieStore.
Import Js Cookies.
Import Fingerprint (Platform, flipkart, shopsy, platformName).

(** What [JSON.stringify] keeps of an object. *)
Definition jsonObj (o : obj) : obj :=
  Accounts.jsonValue <$> filter (fun kv => is_undefined kv.2 = false) o.

(** A cookie file: something that does not parse, or an array of cookies. *)
Inductive CookieFile : Type :=
  | BadJson
  | CookieArray (cookies : list obj).

(** The files of the cookie directory, by path. Disk failures are not part
    of the model; the replication call [pushCookies] is fire-and-forget and
    changes nothing here. *)
Abbreviation CookieFiles := (gmap string CookieFile).

Definition errBadJson : JsError := mkError "SyntaxError" "Unexpected token in JSON".

(** [loadCookiesFromDisk(accountId, platform)] *)
Definition loadCookiesFromDisk (accountId : string) (platform : Platform)
    (files : CookieFiles) : Result (list obj) :=
  match files !! getCookieFilePath accountId (platformName platform) with
  | Some (CookieArray cookies) => Ok cookies
  | Some BadJson => Throw errBadJson
  | None => Ok []
  end.

(** [saveCookiesToDisk(accountId, cookies, platform)] *)
Definition saveCookiesToDisk (accountId : string) (cookies : list obj)
    (platform : Platform) (files : CookieFiles) : CookieFiles :=
  <[getCookieFilePath accountId (platformName platform)
      := CookieArray (jsonObj <$> cookies)]> files.

(** The loop of [extractAndSaveCookies]: [attempts] polls are left, the
    next is number [i], [last] is what the previous poll saw. A poll that
    sees more than five cookies ends the loop. *)
Fixpoint pollCookies (jar : nat -> Result (list obj)) (attempts i : nat)
    (last : list obj) : Result (list obj) :=
  match attempts with
  | 0 => Ok last
  | S attempts' =>
      cookies <-! jar i;
      if 5 <? length cookies then Ok cookies
      else pollCookies jar attempts' (S i) cookies
  end.

Definition errNoCookies (id : string) (platform : Platform) : JsError :=
  mkError "Error"
    ("No cookies found in browser context for " +:+ id +:+ " on "
       +:+ platformName platform +:+ ".").

(** [extractAndSaveCookies(context, accountId, platform)]; [jar i] is what
    the [i]-th call of [context.cookies()] gives. *)
Definition extractAndSaveCookies (jar : nat -> Result (list obj))
    (accountId : string) (platform : Platform) (files : CookieFiles)
  : Result (list obj) * CookieFiles :=
  let id := Str.normalizeId accountId in
  match pollCookies jar 5 0 [] with
  | Throw e => (Throw e, files)
  | Ok cookies =>
      if length cookies =? 0 then (Throw (errNoCookies id platform), files)
      else
        (Ok cookies,
         <[getCookieFilePath id (platformName platform)
             := CookieArray (jsonObj <$> cookies)]> files)
  end.

(** [injectFlipkartCookiesIntoShopsy(context, accountId)]: the cookies it
    hands to [context.addCookies], or [None] where it returns [false]
    because there is no flipkart file. *)
Definition cookiesForShopsy (accountId : string) (files : CookieFiles)
  : Result (option (list obj)) :=
  match files !! getCookieFilePath accountId "flipkart" with
  | None => Ok None
  | Some BadJson => Throw errBadJson
  | Some (CookieArray flipkartCookies) =>
      shopsyCookies <-! adaptCookiesForShopsy flipkartCookies;
      Ok (Some shopsyCookies)
  end.

(** ** Paths *)

Lemma list_ascii_app (a b : string) :
  String.list_ascii_of_string (a +:+ b)
    = String.list_ascii_of_string a ++ String.list_ascii_of_string b.
Proof. induction a as [|c a IH]; simpl; [done|]. by rewrite IH. Qed.

Lemma list_ascii_inj (a b : string) :
  String.list_ascii_of_string a = String.list_ascii_of_string b -> a = b.
Proof.
  intros H. rewrite <- (String.string_of_list_ascii_of_string a),
    <- (String.string_of_list_ascii_of_string b). by rewrite H.
Qed.

(** The file name of a cookie file determines the normal form of the
    account id and the platform. *)
Lemma getCookieFilePath_inj (a a' : string) (p p' : Platform) :
  getCookieFilePath a (platformName p) = getCookieFilePath a' (platformName p') ->
  Str.normalizeId a = Str.normalizeId a' /\ p = p'.
Proof.
  unfold getCookieFilePath, Config.join. intros Heq.
  do 2 apply ProfileStore.append_inv_head in Heq.
  apply (f_equal String.list_ascii_of_string) in Heq.
  rewrite !list_ascii_app in Heq.
  apply (f_equal (@rev ascii)) in Heq. rewrite !rev_app_distr in Heq.
  destruct p, p'; cbn in Heq; try discriminate Heq.
  - split; [|done]. apply list_ascii_inj.
    rewrite <- (rev_involutive (String.list_ascii_of_string (Str.normalizeId a))),
      <- (rev_involutive (String.list_ascii_of_string (Str.normalizeId a'))).
    f_equal. congruence.
  - split; [|done]. apply list_ascii_inj.
    rewrite <- (rev_involutive (String.list_ascii_of_string (Str.normalizeId a))),
      <- (rev_involutive (String.list_ascii_of_string (Str.normalizeId a'))).
    f_equal. congruence.
Qed.


(** ** Trimming twice *)

Lemma trimEnd_idem (s : string) : Str.trimEnd (Str.trimEnd s) = Str.trimEnd s.
Proof.
  induction s as [|c s IH]; [done|]. cbn [Str.trimEnd].
  destruct (Str.is_space c && Str.is_empty (Str.trimEnd s)) eqn:E; [done|].
  cbn [Str.trimEnd]. by rewrite IH, E.
Qed.

Definition trimmedStart (s : string) : Prop :=
  match s with
  | EmptyString => True
  | String c _ => Str.is_space c = false
  end.

Lemma trimStart_trimmedStart (s : string) : trimmedStart (Str.trimStart s).
Proof.
  induction s as [|c s IH]; [done|]. cbn [Str.trimStart].
  destruct (Str.is_space c) eqn:E; [exact IH | exact E].
Qed.

Lemma trimEnd_trimmedStart (s : string) :
  trimmedStart s -> trimmedStart (Str.trimEnd s).
Proof.
  destruct s as [|c s]; [done|]. cbn [trimmedStart Str.trimEnd].
  intros H. by rewrite H.
Qed.

Lemma trimStart_id (s : string) : trimmedStart s -> Str.trimStart s = s.
Proof.
  destruct s as [|c s]; [done|]. cbn [trimmedStart Str.trimStart].
  intros H. by rewrite H.
Qed.

Lemma trim_idem (s : string) : Str.trim (Str.trim s) = Str.trim s.
Proof.
  unfold Str.trim.
  rewrite (trimStart_id (Str.trimEnd (Str.trimStart s)))
    by apply trimEnd_trimmedStart, trimStart_trimmedStart.
  apply trimEnd_idem.
Qed.

(** The normal form of an account id is its own normal form. *)
Lemma normalizeId_idem (s : string) :
  Str.normalizeId (Str.normalizeId s) = Str.normalizeId s.
Proof.
  unfold Str.normalizeId at 1. rewrite StrFacts.toLowerCase_normalizeId.
  unfold Str.normalizeId. apply trim_idem.
Qed.

Lemma getCookieFilePath_normalizeId (a p : string) :
  getCookieFilePath (Str.normalizeId a) p = getCookieFilePath a p.
Proof. unfold getCookieFilePath. by rewrite normalizeId_idem. Qed.

(** ** Adapting *)

Lemma adaptCookie_fixed (c c' : obj) :
  adaptCookie c = Ok c' -> adaptCookie c' = Ok c'.
Proof.
  intros [Hh Hs [d [Hd Hd']] _]%adaptCookie_adapted.
  unfold adaptCookie. rewrite Hd'.
  assert (Str.includes (if Str.includes d "flipkart.com" then ".shopsy.in" else d)
            "flipkart.com" = false) as ->.
  { destruct (Str.includes d "flipkart.com") eqn:E; [reflexivity|done]. }
  f_equal. rewrite (delete_id c' "hostOnly") by done. by apply delete_id.
Qed.

(** X15. Adapting is idempotent: a list of cookies that
    [adaptCookiesForShopsy] returned is returned unchanged when it is
    adapted again, and none of its domains contains ["flipkart.com"]. *)
Theorem adaptCookiesForShopsy_idempotent (cookies out : list obj) :
  adaptCookiesForShopsy cookies = Ok out ->
  adaptCookiesForShopsy out = Ok out /\
  Forall (fun c' => exists d, c' !! "domain" = Some (JStr d) /\
                      Str.includes d "flipkart.com" = false) out.
Proof.
  revert out. induction cookies as [|c rest IH]; intros out; simpl.
  - by intros [= <-].
  - destruct (adaptCookie c) as [c'|] eqn:Hc; [|done]. simpl.
    destruct (adaptCookiesForShopsy rest) as [rest'|]; [|done]. simpl.
    intros [= <-]. destruct (IH rest' eq_refl) as [IH1 IH2]. split.
    + simpl. by rewrite (adaptCookie_fixed _ _ Hc), IH1.
    + constructor; [|done].
      destruct (adaptCookie_adapted _ _ Hc) as [_ _ [d [Hd Hd']] _].
      eexists. split; [exact Hd'|].
      destruct (Str.includes d "flipkart.com") eqn:E; [reflexivity|done].
Qed.

(** ** Saving and loading *)

#[global] Instance Platform_eq_dec : EqDecision Platform.
Proof. solve_decision. Defined.


(** ** Polling the browser *)

Lemma pollCookies_spec (jar : nat -> Result (list obj)) (attempts i : nat)
    (last cookies : list obj) :
  pollCookies jar attempts i last = Ok cookies ->
  (attempts = 0 /\ cookies = last) \/
  exists k, i <= k < i + attempts /\ jar k = Ok cookies /\
    (forall j, i <= j < k -> exists cs, jar j = Ok cs /\ length cs <= 5) /\
    (5 < length cookies \/ k = i + attempts - 1).
Proof.
  revert i last. induction attempts as [|n IH]; intros i last; simpl.
  - intros [= <-]. by left.
  - destruct (jar i) as [cs|] eqn:Hj; [|done]. simpl.
    destruct (5 <? length cs) eqn:Hlen.
    + intros [= <-]. right. exists i. apply Nat.ltb_lt in Hlen.
      split_and!; [lia|lia|done| |by left]. intros j ?; lia.
    + apply Nat.ltb_ge in Hlen. intros H. apply IH in H as [[-> ->]|(k&Hk&Hjk&Hbefore&Hend)].
      * right. exists i. split_and!; [lia|lia|done| |right; lia]. intros j ?; lia.
      * right. exists k. split_and!; [lia|lia|done| |].
        -- intros j Hjr. destruct (decide (j = i)) as [->|]; [by eexists|].
           apply Hbefore. lia.
        -- destruct Hend; [by left|right; lia].
Qed.

(** X17. [extractAndSaveCookies] asks the browser at most five times. When
    it returns, the cookies it returns are not empty and are what the first
    poll with more than five cookies saw, or the fifth poll when none saw
    that many; every earlier poll succeeded with at most five; and the
    account's cookie file then holds those cookies. When it throws, no file
    has changed. *)
Theorem extractAndSaveCookies_result (jar : nat -> Result (list obj))
    (accountId : string) (platform : Platform) (files : CookieFiles) :
  match (extractAndSaveCookies jar accountId platform files).1 with
  | Ok cookies =>
      cookies <> [] /\
      (exists k, k < 5 /\ jar k = Ok cookies /\
         (forall j, j < k -> exists cs, jar j = Ok cs /\ length cs <= 5) /\
         (5 < length cookies \/ k = 4)) /\
      loadCookiesFromDisk accountId platform
          (extractAndSaveCookies jar accountId platform files).2
        = Ok (jsonObj <$> cookies)
  | Throw _ => (extractAndSaveCookies jar accountId platform files).2 = files
  end.
Proof.
  unfold extractAndSaveCookies.
  destruct (pollCookies jar 5 0 []) as [cookies|] eqn:Hp; [|done].
  destruct (length cookies =? 0) eqn:Hlen; [done|]. cbn [fst snd].
  apply Nat.eqb_neq in Hlen. split_and!.
  - by destruct cookies.
  - apply pollCookies_spec in Hp as [[? _]|(k&Hk&Hjk&Hbefore&Hend)]; [done|].
    exists k. split_and!; [lia|done| |destruct Hend; [by left|right; lia]].
    intros j ?. apply Hbefore. lia.
  - unfold loadCookiesFromDisk. rewrite getCookieFilePath_normalizeId.
    by rewrite lookup_insert_eq.
Qed.

(** It throws exactly when a poll fails before any poll saw more than five
    cookies, or when the deciding poll saw no cookie at all. *)
Lemma extractAndSaveCookies_empty_jar (accountId : string) (platform : Platform)
    (files : CookieFiles) :
  extractAndSaveCookies (fun _ => Ok []) accountId platform files
    = (Throw (errNoCookies (Str.normalizeId accountId) platform), files).
Proof. reflexivity. Qed.

(** ** From the flipkart file to the Shopsy session *)

(** The cookies that [injectFlipkartCookiesIntoShopsy] hands to the
    Shopsy context after [saveCookiesToDisk] stored an account's flipkart
    cookies: one per stored cookie, none with a domain that contains
    ["flipkart.com"], none with [hostOnly] or [session]. *)
Lemma saved_cookies_for_shopsy (accountId accountId' : string)
    (cookies : list obj) (files : CookieFiles) (out : list obj) :
  Str.normalizeId accountId' = Str.normalizeId accountId ->
  cookiesForShopsy accountId' (saveCookiesToDisk accountId cookies flipkart files)
    = Ok (Some out) ->
  length out = length cookies /\
  Forall (fun c' => c' !! "hostOnly" = None /\ c' !! "session" = None /\
            exists d, c' !! "domain" = Some (JStr d) /\
                      Str.includes d "flipkart.com" = false) out.
Proof.
  intros Hn. unfold cookiesForShopsy, saveCookiesToDisk, getCookieFilePath.
  rewrite Hn. cbn [platformName]. rewrite lookup_insert_eq.
  destruct (adaptCookiesForShopsy (jsonObj <$> cookies)) as [out'|] eqn:Ha; [|done].
  simpl. intros [= <-].
  rewrite <- (length_fmap jsonObj cookies).
  revert out' Ha. generalize (jsonObj <$> cookies). clear.
  intros l. induction l as [|c rest IH]; intros out; simpl.
  - by intros [= <-].
  - destruct (adaptCookie c) as [c'|] eqn:Hc; [|done]. simpl.
    destruct (adaptCookiesForShopsy rest) as [rest'|]; [|done]. simpl.
    intros [= <-]. destruct (IH rest' eq_refl) as [IH1 IH2]. split.
    + simpl. by rewrite IH1.
    + constructor; [|done].
      destruct (adaptCookie_adapted _ _ Hc) as [Hh Hs [d [Hd Hd']] _].
      split_and!; [done|done|]. eexists. split; [exact Hd'|].
      destruct (Str.includes d "flipkart.com") eqn:E; [reflexivity|done].
Qed.

End CookieStore.

(* ================================================================== *)
(** * The profile vault: what a failed or finished run leaves behind *)
(* ================================================================== *)

Module ProfileStoreFacts.
Import Buf Js NodeCrypto Config ProfileStore.

Section WithPlatform.
Context `{Primitives} `{Archiver}.

Lemma getKey_unset (w : World) (salt : bytes) :
  globalPassphrase w = None \/ globalPassphrase w = Some EmptyString ->
  getKey w salt = Throw errPassphraseNotSet.
Proof. unfold getKey. by intros [-> | ->]. Qed.

(** X18. Without a passphrase (never set, or set to the empty string)
    [saveProfileToDisk] of an existing profile throws the passphrase error
    after the plain archive has been written: the unencrypted archive of the
    profile stays on disk at the [.zip] path, and no backup is written. *)
Theorem save_without_passphrase_leaves_archive (platform accountId : string)
    (w : World) (e : Entropy) (tree : Tree) :
  globalPassphrase w = None \/ globalPassphrase w = Some EmptyString ->
  dirs w !! profilePathOf platform (Str.normalizeId accountId) = Some tree ->
  let id := Str.normalizeId accountId in
  let run := saveProfileToDisk platform accountId w e in
  run.1.1 = Throw errPassphraseNotSet /\
  files run.1.2 !! zipPathOf platform id = Some (zipFolder tree) /\
  files run.1.2 !! encPathOf platform id = files w !! encPathOf platform id /\
  dirs run.1.2 = dirs w.
Proof.
  intros Hpass Hdir. cbv zeta. unfold saveProfileToDisk. rewrite Hdir.
  destruct (randomBytes SALT_LENGTH e) as [salt e1].
  destruct (randomBytes IV_LENGTH e1) as [iv e2].
  rewrite getKey_unset by done. cbn [fst snd].
  split; [done|]. cbn [files with_files dirs]. split; [apply lookup_insert_eq|].
  split; [|done]. apply lookup_insert_ne, zipPath_ne_encPath.
Qed.

(** X19. When [saveProfileToDisk] returns, the plain archive is gone, the
    profile directories and the passphrase are as before, and the only file
    that was added or changed is the backup. *)
Theorem save_leaves_only_backup (platform accountId : string) (w w' : World)
    (e e' : Entropy) (path : string) :
  saveProfileToDisk platform accountId w e = (Ok path, w', e') ->
  let id := Str.normalizeId accountId in
  files w' !! zipPathOf platform id = None /\
  (forall p, p <> zipPathOf platform id -> p <> encPathOf platform id ->
     files w' !! p = files w !! p) /\
  dirs w' = dirs w /\
  globalPassphrase w' = globalPassphrase w.
Proof.
  cbv zeta. unfold saveProfileToDisk.
  destruct (dirs w !! _) as [tree|]; [|done].
  destruct (randomBytes SALT_LENGTH e) as [salt e1].
  destruct (randomBytes IV_LENGTH e1) as [iv e2].
  destruct (getKey _ salt) as [key|]; [|done].
  destruct (gcm_encrypt key iv None (zipFolder tree)) as [[streamed t0]|]; [|done].
  destruct (files _ !! zipPathOf _ _) as [zipBuffer|]; [|done].
  destruct (gcm_encrypt key iv None zipBuffer) as [[encrypted tag]|]; [|done].
  intros [= <- <- <-]. cbn [files with_files dirs globalPassphrase].
  split; [apply lookup_delete_eq|]. split; [|done].
  intros p Hz He. rewrite lookup_delete_ne by done.
  by rewrite !lookup_insert_ne.
Qed.

(** X20. A restore that throws has either changed nothing, or it got as far
    as unpacking: then the decrypted archive was no archive, the profile
    directory has been emptied, and the decrypted bytes are left in the
    temporary file. *)
Theorem restore_failure_effects (platform accountId : string) (w w' : World)
    (err : JsError) :
  restoreProfileFromDisk platform accountId w = (Throw err, w') ->
  w' = w \/
  exists decrypted,
    unzip decrypted = None /\
    dirs w' !! profilePathOf platform (Str.normalizeId accountId) = Some ∅ /\
    files w' !! tempZipPathOf platform accountId = Some decrypted.
Proof.
  unfold restoreProfileFromDisk.
  destruct (files w !! _) as [fileData|]; [|intros [= _ <-]; by left].
  destruct (parseBackup fileData) as [[[salt iv] tag] encryptedText].
  destruct (key <-! getKey w salt; gcm_decrypt key iv None tag encryptedText)
    as [decrypted|]; [|intros [= _ <-]; by left].
  destruct (unzip decrypted) eqn:Hunzip; [done|].
  intros [= _ <-]. right. exists decrypted. split; [done|].
  cbn [files dirs with_files with_dirs].
  split; apply lookup_insert_eq.
Qed.

End WithPlatform.
End ProfileStoreFacts.

(* ================================================================== *)
(** * The health prober and the registry *)
(* ================================================================== *)

Module HealthFacts.
Import Js BrowserManager Automation Config Health.
Import Fingerprint (Platform, flipkart, shopsy, platformName).

Lemma append_assoc (a b c : string) : (a +:+ b) +:+ c = a +:+ (b +:+ c).
Proof.
  induction a as [|ch a IH]; [done|].
  change (String ch ((a +:+ b) +:+ c) = String ch (a +:+ (b +:+ c))).
  by rewrite IH.
Qed.

(** The four answers of the prober. *)
Definition healthStatuses : list string :=
  ["Healthy"; "MISSING_PROFILE"; "ActionNeeded"; "Error"].

Lemma checkAccountHealth_status (platform : Platform) (accountId : string)
    (env : ProbeEnv) (w : World) :
  status (checkAccountHealth platform accountId env w).1 ∈ healthStatuses.
Proof.
  unfold checkAccountHealth, healthStatuses.
  destruct (_ || _); [set_solver|].
  destruct (negb _); [set_solver|].
  destruct (launch env) as [context|]; [|set_solver].
  destruct (step context (content env) _) as [[html|err] w3]; [|set_solver].
  destruct (closeContext context (close env) w3) as [[[]|err] w4]; [|set_solver].
  destruct (looksHealthy platform html); set_solver.
Qed.

(** ** A probe in flight hides the account from other checks *)

(** X21. While the probe of an account is registered (the key is
    [platform-id-health]), a check of every account whose id is a prefix of
    that id, the account itself included, on either platform, answers
    [Healthy] with "Browser session currently active" and starts no
    browser. *)
Theorem probe_in_flight_skips_checks (probed platform : Platform)
    (accountId rest : string) (context : Context) (env : ProbeEnv) (w : World) :
  let w' := set_browsers w
    (register (platformName probed +:+ "-" +:+ (accountId +:+ rest) +:+ "-health")
       context (browsers w)) in
  checkAccountHealth platform accountId env w'
    = (mkHealth "Healthy" "Browser session currently active", w').
Proof.
  cbv zeta. unfold checkAccountHealth. cbn [browsers set_browsers].
  assert (platformName probed +:+ "-" +:+ (accountId +:+ rest) +:+ "-health"
          = (platformName probed +:+ "-" +:+ accountId) +:+ (rest +:+ "-health")) as ->.
  { by rewrite !append_assoc. }
  destruct probed; cbn [platformName].
  - by rewrite isActive_register by apply StrFacts.startsWith_append.
  - rewrite (isActive_register _ ("shopsy-" +:+ accountId))
      by apply StrFacts.startsWith_append.
    by rewrite orb_true_r.
Qed.

(** ** A probe that ran leaves the registry as it found it *)

Lemma isActive_false_absent (k pre : string) (r : Registry) :
  isActive pre r = false -> Str.startsWith k pre = true -> k ∉ (contexts r).*1.
Proof.
  unfold isActive. intros Hact Hpre [[k' v] [-> Hin]]%list_elem_of_fmap.
  assert (existsb (fun kv : string * Context => Str.startsWith kv.1 pre) (contexts r) = true)
    as Hex; [|by rewrite Hex in Hact].
  apply existsb_exists. exists (k', v). split; [|done].
  by apply list_elem_of_In.
Qed.

Lemma mapDelete_mapSet (k : string) (c : Context) (m : list (string * Context)) :
  k ∉ m.*1 -> mapDelete k (mapSet k c m) = m.
Proof.
  unfold mapDelete. induction m as [|[k' v] m IH]; intros Habs; simpl.
  - rewrite filter_cons. cbn. rewrite String.eqb_refl. by rewrite decide_False.
  - apply not_elem_of_cons in Habs as [Hne Habs]. cbn in Hne.
    assert (String.eqb k' k = false) as Hk.
    { apply String.eqb_neq. congruence. }
    rewrite Hk. rewrite filter_cons. cbn. rewrite Hk.
    rewrite decide_True by done. f_equal. by apply IH.
Qed.

Lemma deletions_other_context (c : Context) (ls : list (Context * string))
    (m : list (string * Context)) :
  c ∉ ls.*1 ->
  foldr (fun l m' => if Nat.eqb l.1 c then mapDelete l.2 m' else m') m ls = m.
Proof.
  induction ls as [|[c' k] ls IH]; intros Habs; cbn [foldr]; [done|].
  apply not_elem_of_cons in Habs as [Hne Habs]. cbn in Hne.
  cbn beta. cbn [fst snd].
  assert (Nat.eqb c' c = false) as -> by (apply Nat.eqb_neq; congruence).
  by apply IH.
Qed.

(** Closing a context that was registered once, under a fresh key, undoes
    the registration. *)
Lemma emitClose_register (k : string) (c : Context) (r : Registry) :
  k ∉ (contexts r).*1 -> c ∉ (listeners r).*1 ->
  emitClose c (register k c r) = r.
Proof.
  intros Hk Hc. unfold emitClose, register. cbn [contexts listeners].
  destruct r as [m ls]. cbn [contexts listeners] in *. f_equal.
  - rewrite foldr_app. cbn [foldr fst snd]. cbn beta. cbn [fst snd].
    rewrite Nat.eqb_refl, mapDelete_mapSet by done.
    by apply deletions_other_context.
  - rewrite filter_app, filter_cons. cbn [fst]. rewrite Nat.eqb_refl.
    rewrite decide_False by done. rewrite filter_nil, app_nil_r.
    induction ls as [|[c' k'] ls IH]; [done|].
    apply not_elem_of_cons in Hc as [Hne Hc]. cbn in Hne.
    rewrite filter_cons. cbn [fst].
    assert (Nat.eqb c' c = false) as -> by (apply Nat.eqb_neq; congruence).
    rewrite decide_True by done. f_equal. by apply IH.
Qed.

Lemma emitClose_unknown (c : Context) (r : Registry) :
  c ∉ (listeners r).*1 -> emitClose c r = r.
Proof.
  intros Hc. unfold emitClose. destruct r as [m ls]. cbn [contexts listeners] in *.
  f_equal; [by apply deletions_other_context|].
  induction ls as [|[c' k'] ls IH]; [done|].
  apply not_elem_of_cons in Hc as [Hne Hc]. cbn in Hne.
  rewrite filter_cons. cbn [fst].
  assert (Nat.eqb c' c = false) as -> by (apply Nat.eqb_neq; congruence).
  rewrite decide_True by done. f_equal. by apply IH.
Qed.


End HealthFacts.

(* ================================================================== *)
(** * The [check] command of [src/cli.ts] *)
(* ================================================================== *)

Module Cli.
Import Js Automation Health.
Import Fingerprint (Platform).

(** An element of [results]: [{ id, ...health }], or the entry the [catch]
    pushes. *)
Record CheckEntry : Type := mkEntry {
  entryId : string;
  entryStatus : string;
  entryMessage : string;
}.

(** [results.push({ id, ...health })] *)
Definition checkedEntry (id : string) (health : HealthResult) : CheckEntry :=
  mkEntry id (Health.status health) (Health.message health).

(** [results.push({ id, status: 'ERROR', message: String(error) })] *)
Definition failedEntry (id : string) (error : JsError) : CheckEntry :=
  mkEntry id "ERROR" (errorToString error).

(** The three numbers of the last line: healthy, needs refresh, error. *)
Definition summary (results : list CheckEntry) : nat * nat * nat :=
  let healthy :=
    length (List.filter (fun r => String.eqb (entryStatus r) "HEALTHY") results) in
  let needsRefresh :=
    length (List.filter (fun r => String.eqb (entryStatus r) "NEEDS_REFRESH") results) in
  (healthy, needsRefresh, length results - healthy - needsRefresh).

(** What the loop can push. *)
Definition pushedByCheck (entry : CheckEntry) : Prop :=
  (exists platform id env w,
     entry = checkedEntry id (checkAccountHealth platform id env w).1) \/
  (exists id error, entry = failedEntry id error).

(** X23. The summary of the [check] command counts no account as healthy
    and none as needing refresh, whatever the prober answered: the prober's
    answers are ['Healthy'], ['MISSING_PROFILE'], ['ActionNeeded'] and
    ['Error'], the summary looks for ['HEALTHY'] and ['NEEDS_REFRESH'], so
    every checked account is counted as an error. *)
Theorem check_summary_counts_all_as_error (results : list CheckEntry) :
  Forall pushedByCheck results ->
  summary results = (0, 0, length results).
Proof.
  intros Hall. unfold summary.
  assert (forall (rs : list CheckEntry) s,
    Forall (fun r => String.eqb (entryStatus r) s = false) rs ->
    List.filter (fun r => String.eqb (entryStatus r) s) rs = []) as Hnone.
  { clear. intros rs0 s. induction 1 as [|r rs Hr _ IH]; [done|].
    cbn [List.filter]. rewrite Hr. exact IH. }
  rewrite !Hnone; [simpl; f_equal; lia| |].
  - eapply Forall_impl; [exact Hall|]. intros r [(p & id & env & w & ->)|(id & e & ->)];
      [|done]. cbn [checkedEntry entryStatus].
    pose proof (HealthFacts.checkAccountHealth_status p id env w) as Hst.
    unfold HealthFacts.healthStatuses in Hst.
    repeat (apply elem_of_cons in Hst as [-> | Hst]; [done|]). by apply elem_of_nil in Hst.
  - eapply Forall_impl; [exact Hall|]. intros r [(p & id & env & w & ->)|(id & e & ->)];
      [|done]. cbn [checkedEntry entryStatus].
    pose proof (HealthFacts.checkAccountHealth_status p id env w) as Hst.
    unfold HealthFacts.healthStatuses in Hst.
    repeat (apply elem_of_cons in Hst as [-> | Hst]; [done|]). by apply elem_of_nil in Hst.
Qed.

End Cli.

(* ================================================================== *)
(** * The login flows and the registries *)
(* ================================================================== *)

Module LoginFacts.
Import Js BrowserManager Automation Config Login.

(** ** Flows that keep a property of the world *)

Definition keeps {A} (P : World -> Prop) (m : Flow A) : Prop :=
  forall w, P w -> P (m w).2.

Lemma keeps_ret {A} P (a : A) : keeps P (ret a).
Proof. by intros w. Qed.

Lemma keeps_throw {A} P (e : JsError) : keeps P (@throw A e).
Proof. by intros w. Qed.

Lemma keeps_lift {A} P (r : Result A) : keeps P (lift r).
Proof. by intros w. Qed.

Lemma keeps_andThen {A B} P (m : Flow A) (k : A -> Flow B) :
  keeps P m -> (forall a, keeps P (k a)) -> keeps P (andThen m k).
Proof.
  intros Hm Hk w Hw. unfold andThen. specialize (Hm w Hw).
  destruct (m w) as [[a|e] w1]; [by apply Hk|done].
Qed.

Lemma keeps_tryCatch {A} P (m : Flow A) (h : JsError -> Flow A) :
  keeps P m -> (forall e, keeps P (h e)) -> keeps P (tryCatch m h).
Proof.
  intros Hm Hh w Hw. unfold tryCatch. specialize (Hm w Hw).
  destruct (m w) as [[a|e] w1]; [done|by apply Hh].
Qed.

Lemma andThen_ok {A B} (m : Flow A) (k : A -> Flow B) (w w' : World) (b : B) :
  andThen m k w = (Ok b, w') ->
  exists a w1, m w = (Ok a, w1) /\ k a w1 = (Ok b, w').
Proof.
  unfold andThen. destruct (m w) as [[a|e] w1]; [|done]. intros Hk. by exists a, w1.
Qed.

(** ** A registered context, until it closes *)

(** The key is either gone from the map, or the listener that will remove
    it is still subscribed. *)
Definition pending (key : string) (c : Context) (r : Registry) : Prop :=
  key ∉ (contexts r).*1 \/ (c, key) ∈ listeners r.

Definition gone (key : string) (r : Registry) : Prop := key ∉ (contexts r).*1.

Lemma pending_register (key : string) (c : Context) (r : Registry) :
  pending key c (register key c r).
Proof. right. unfold register. cbn [listeners]. set_solver. Qed.

Lemma emitClose_gone (key : string) (c c' : Context) (r : Registry) :
  gone key r -> gone key (emitClose c' r).
Proof. intros Hg. unfold gone, emitClose. cbn [contexts]. by apply deletions_keep_absent. Qed.

Lemma emitClose_pending (key : string) (c : Context) (r : Registry) :
  pending key c r -> gone key (emitClose c r).
Proof.
  intros [Hg|Hin]; [by apply (emitClose_gone key c)|].
  unfold gone, emitClose. cbn [contexts].
  induction (listeners r) as [|l ls IH]; [by apply elem_of_nil in Hin|].
  cbn [foldr]. cbn beta. apply elem_of_cons in Hin as [<-|Hin].
  - cbn [fst snd]. rewrite Nat.eqb_refl. apply mapDelete_absent.
  - specialize (IH Hin). case_match; [by apply mapDelete_keeps_absent|done].
Qed.

Section OneContext.
Variables (key key' : string) (c : Context).

(** Both registries at once: [browsers] under [key], [activeContexts]
    under [key']. *)
Definition bothPending (w : World) : Prop :=
  pending key c (browsers w) /\ pending key' c (activeContexts w).
Definition bothGone (w : World) : Prop :=
  gone key (browsers w) /\ gone key' (activeContexts w).

Lemma bothGone_pending (w : World) : bothGone w -> bothPending w.
Proof. intros [H1 H2]. split; by left. Qed.

Lemma contextClosed_gone (w : World) : bothPending w -> bothGone (contextClosed c w).
Proof.
  intros [H1 H2]. unfold contextClosed, bothGone.
  cbn [browsers activeContexts set_browsers set_activeContexts].
  split; by apply emitClose_pending.
Qed.

Lemma keeps_step {A} (s : Step A) : keeps bothPending (step c s).
Proof.
  intros w Hw. destruct s; cbn [step snd]; [done|done|].
  by apply bothGone_pending, contextClosed_gone.
Qed.

Lemma keeps_closeContext (s : Step unit) : keeps bothPending (closeContext c s).
Proof.
  intros w Hw. destruct s; cbn [closeContext snd]; [|done|];
    by apply bothGone_pending, contextClosed_gone.
Qed.

Lemma keeps_onStore {A} P (f : Accounts.Async A) :
  (forall w s, P w -> P (set_store w s)) -> keeps P (onStore f).
Proof.
  intros HP w Hw. unfold onStore. destruct (f (store w)) as [r s]. by apply HP.
Qed.

Lemma bothPending_set_store (w : World) (s : Accounts.Store) :
  bothPending w -> bothPending (set_store w s).
Proof. done. Qed.

Lemma bothGone_set_store (w : World) (s : Accounts.Store) :
  bothGone w -> bothGone (set_store w s).
Proof. done. Qed.

Lemma closeContext_ok_gone (s : Step unit) (w w' : World) (u : unit) :
  bothPending w -> closeContext c s w = (Ok u, w') -> bothGone w'.
Proof.
  intros Hw. destruct s; cbn [closeContext]; [|done|];
    intros [= _ <-]; by apply contextClosed_gone.
Qed.

Lemma keeps_otpLoop (env : FlipkartEnv) (hasAccountMail : bool) (rounds i : nat) :
  keeps bothPending (otpLoop env c hasAccountMail rounds i).
Proof.
  revert i. induction rounds as [|n IH]; intros i; cbn [otpLoop]; [apply keeps_ret|].
  destruct (match (if hasAccountMail then accountOtp (fk_otp env i) else None) with
            | Some code => Some code
            | None => if fk_masterEmail env then masterOtp (fk_otp env i) else None
            end).
  - apply keeps_tryCatch; [|intros _; apply IH].
    apply keeps_andThen; [apply keeps_step|intros _; apply keeps_ret].
  - apply keeps_andThen; [apply keeps_step|intros _; apply IH].
Qed.

(** The closing part of both flows: [context.close()], the encrypted
    backup, [updateLastLogin], and the result. *)
Lemma closing_ok_gone (s : Step unit) (save : Result unit) (id now : string)
    (result r : LoginResult) (w w' : World) :
  bothPending w ->
  (closeContext c s ;;; lift save ;;; onStore (Accounts.updateLastLogin id now) ;;;
   ret result) w = (Ok r, w') ->
  bothGone w'.
Proof.
  intros Hw (u & w1 & Hclose & Hrest)%andThen_ok.
  apply (closeContext_ok_gone _ _ _ _ Hw) in Hclose.
  apply andThen_ok in Hrest as (u2 & w2 & Hsave & Hrest).
  unfold lift in Hsave. injection Hsave as _ <-.
  apply andThen_ok in Hrest as (u3 & w3 & Hstore & Hrest).
  unfold ret in Hrest. injection Hrest as _ <-.
  unfold onStore in Hstore. destruct (Accounts.updateLastLogin id now (store w1)) as [r1 s1].
  injection Hstore as _ <-. by apply bothGone_set_store.
Qed.

End OneContext.

(** ** [loginShopsy] *)

(** X24. When [loginShopsy] returns, the context it started has closed and
    its key [id-shopsy-login] is no longer in the registry. *)
Theorem loginShopsy_returns_unregistered (o : LoginOptions) (env : ShopsyEnv)
    (now : string) (w : World) (r : LoginResult) :
  (loginShopsy o env now w).1 = Ok r ->
  (accountId o +:+ "-shopsy-login") ∉ (contexts (browsers (loginShopsy o env now w).2)).*1.
Proof.
  unfold loginShopsy. destruct (sh_launch env) as [context|]; [|done].
  set (key := accountId o +:+ "-shopsy-login").
  set (w2 := set_browsers _ _).
  assert (bothPending key key context
            (set_activeContexts w2 (register key context (activeContexts w2)))) as Hpend.
  { split; apply pending_register. }
  assert (pending key context (browsers w2)) as Hb by apply pending_register.
  unfold tryCatch.
  destruct (shopsyBody o env now context w2) as [[r'|err] wb] eqn:Hbody.
  - intros _. cbn [snd]. revert Hbody. unfold shopsyBody.
    intros (u1 & w3 & H1 & Hrest)%andThen_ok.
    apply andThen_ok in Hrest as (u2 & w4 & H2 & Hrest).
    apply andThen_ok in Hrest as (u3 & w5 & H3 & Hrest).
    apply andThen_ok in Hrest as (u4 & w6 & H4 & Hrest).
    apply andThen_ok in Hrest as (u5 & w7 & H5 & Hrest).
    apply andThen_ok in Hrest as (u6 & w8 & H6 & Hrest).
    assert (forall A (s : Step A) (a : A) wa wb',
      step context s wa = (Ok a, wb') -> wb' = wa) as Hstep.
    { intros A [a'|e|] a wa wb'; cbn [step]; congruence. }
    apply Hstep in H1, H2, H3, H4, H5, H6. subst.
    apply andThen_ok in Hrest as (u & wc & Hclose & Hrest).
    assert (gone key (browsers wc)) as Hgone.
    { destruct (sh_close env); cbn [closeContext] in Hclose; [|done|];
        injection Hclose as _ <-; unfold contextClosed;
        cbn [browsers set_browsers set_activeContexts];
        by apply emitClose_pending. }
    apply andThen_ok in Hrest as (us & ws & Hsave & Hrest).
    unfold lift in Hsave. injection Hsave as _ <-.
    apply andThen_ok in Hrest as (ul & wl & Hstore & Hrest).
    unfold ret in Hrest. injection Hrest as _ <-.
    unfold onStore in Hstore.
    destruct (Accounts.updateLastLogin (accountId o) now (store wc)) as [r1 s1].
    by injection Hstore as _ <-.
  - pose proof (shopsyCatch_throws o env now context err wb) as Hthrow.
    destruct (shopsyCatch o env now context err wb) as [[r'|] w']; done.
Qed.

(** ** [loginFlipkart] *)

Lemma find_mapSet (id : string) (c : Context) (m : list (string * Context)) :
  is_Some (List.find (fun kv : string * Context => String.eqb kv.1 id) (mapSet id c m)).
Proof.
  induction m as [|[k v] m IH]; cbn [mapSet List.find fst].
  - rewrite String.eqb_refl. by eexists.
  - destruct (String.eqb k id) eqn:Hk; cbn [List.find fst]; rewrite Hk; [by eexists|done].
Qed.

(** X25. A login that found the account already signed in and was asked to
    keep the window open leaves the context tracked: a second
    [loginFlipkart] for the account, while the window's first page is open,
    answers "Browser already open" and neither starts a browser nor changes
    anything. *)
Theorem loginFlipkart_keeps_window (o : LoginOptions) (env env' : FlipkartEnv)
    (now now' : string) (w : World) (context : Context) :
  keepOpen o = true ->
  fk_existingPageOpen env = false ->
  fk_launch env = Ok context ->
  fk_open env = Done tt ->
  fk_isLoggedIn env = true ->
  fk_existingPageOpen env' = true ->
  let w1 := (loginFlipkart o env now w).2 in
  (loginFlipkart o env now w).1 = Ok (mkResult "success" "Already logged in") /\
  loginFlipkart o env' now' w1 = (Ok (mkResult "success" "Browser already open"), w1).
Proof.
  intros Hkeep Hstale Hlaunch Hopen Hlogged Hpage. cbv zeta.
  assert (exists w3 : World, loginFlipkart o env now w
                       = (Ok (mkResult "success" "Already logged in"), w3) /\
            is_Some (List.find (fun kv : string * Context => String.eqb kv.1 (accountId o))
                       (contexts (activeContexts w3)))) as (w3 & -> & Hfound).
  { eexists. split.
    - unfold loginFlipkart. rewrite Hstale, andb_false_r, Hlaunch.
      unfold tryCatch, flipkartBody, andThen. rewrite Hopen, Hlogged, Hkeep.
      cbn [step ret fst snd]. reflexivity.
    - cbn [activeContexts set_browsers set_activeContexts add_launch register contexts].
      apply find_mapSet. }
  cbn [fst snd]. split; [done|].
  unfold loginFlipkart. rewrite Hpage, andb_true_r.
  by rewrite bool_decide_eq_true_2.
Qed.

Lemma flipkartCatch_ok (o : LoginOptions) (env : FlipkartEnv) (now : string)
    (context : Context) (err : JsError) (w w' : World) (r : LoginResult) :
  flipkartCatch o env now context err w = (Ok r, w') ->
  r = mkResult "cancelled" "Browser closed by user".
Proof.
  unfold flipkartCatch. destruct (_ || _).
  - unfold andThen, swallow, tryCatch, ret.
    destruct (closeContext context (fk_close env) w) as [[[]|e] w1]; congruence.
  - unfold andThen, swallow, tryCatch, ret, throw.
    destruct (onStore _ w) as [[[]|e1] w1]; [|done].
    destruct (closeContext context (fk_close env) w1) as [[[]|e] w2]; done.
Qed.

(** X26. When [loginFlipkart] answers "Login completed", the context it
    started has closed and the account is listed neither in the registry
    (key [id-flipkart-login]) nor in the module's own map of active
    contexts, so the next login for the account starts a browser again. *)
Theorem loginFlipkart_completed_unregistered (o : LoginOptions) (env : FlipkartEnv)
    (now : string) (w : World) (r : LoginResult) :
  (loginFlipkart o env now w).1 = Ok r ->
  message r = "Login completed" ->
  let w' := (loginFlipkart o env now w).2 in
  ((accountId o +:+ "-flipkart-login") ∉ (contexts (browsers w')).*1) /\
  accountId o ∉ (contexts (activeContexts w')).*1.
Proof.
  cbv zeta. unfold loginFlipkart.
  destruct (_ && _); [by intros [= <-]|].
  destruct (fk_launch env) as [context|]; [|done].
  set (w3 := set_browsers _ _).
  set (key := accountId o +:+ "-flipkart-login").
  assert (bothPending key (accountId o) context w3) as Hpend.
  { split; apply pending_register. }
  unfold tryCatch.
  destruct (flipkartBody o env now context w3) as [[r'|err] wb] eqn:Hbody.
  2:{ destruct (flipkartCatch o env now context err wb) as [[r'|e'] wc] eqn:Hcatch;
        [|done].
      apply flipkartCatch_ok in Hcatch as ->. by intros [= <-]. }
  cbn [fst snd]. intros [= ->] Hmsg.
  change (bothGone key (accountId o) wb).
  revert Hbody. unfold flipkartBody.
  intros (u1 & w4 & H1 & Hrest)%andThen_ok.
  pose proof (keeps_step key (accountId o) context (fk_open env) w3 Hpend) as Hp4.
  rewrite H1 in Hp4. cbn [snd] in Hp4.
  destruct (fk_isLoggedIn env).
  { apply andThen_ok in Hrest as (u2 & w5 & _ & Hrest). unfold ret in Hrest.
    injection Hrest as <- _. done. }
  apply andThen_ok in Hrest as (accountData & w5 & H2 & Hrest).
  pose proof (keeps_onStore (bothPending key (accountId o) context)
                (Accounts.getAccount (accountId o))
                (bothPending_set_store key (accountId o) context) w4 Hp4) as Hp5.
  rewrite H2 in Hp5. cbn [snd] in Hp5.
  apply andThen_ok in Hrest as (u3 & w6 & H3 & Hrest).
  assert (bothPending key (accountId o) context w6) as Hp6.
  { change w6 with (Ok u3, w6).2. rewrite <- H3.
    revert Hp5. generalize w5. change (keeps (bothPending key (accountId o) context)
      (if bool_decide (is_Some (passEncryptedOf accountData)) || fk_masterEmail env
       then
         step context (fk_warmup env) ;;;
         otpFound <- otpLoop env context
                       (bool_decide (is_Some (passEncryptedOf accountData))) 3 0 ;;
         if negb otpFound && negb (keepOpen o) then throw errOtpFailed else ret tt
       else if negb (keepOpen o) then throw errConfigMissing else ret tt)).
    destruct (_ || _).
    - apply keeps_andThen; [apply keeps_step|intros _].
      apply keeps_andThen; [apply keeps_otpLoop|intros found].
      destruct (_ && _); [apply keeps_throw|apply keeps_ret].
    - destruct (negb _); [apply keeps_throw|apply keeps_ret]. }
  apply andThen_ok in Hrest as (u4 & w7 & H4 & Hrest).
  assert (bothPending key (accountId o) context w7) as Hp7.
  { change w7 with (Ok u4, w7).2. rewrite <- H4. revert Hp6. generalize w6.
    apply keeps_tryCatch; [apply keeps_step|intros e].
    destruct (_ && _); [apply keeps_ret|apply keeps_throw]. }
  apply andThen_ok in Hrest as (u5 & w8 & H5 & Hrest).
  pose proof (keeps_step key (accountId o) context (fk_settle env) w7 Hp7) as Hp8.
  rewrite H5 in Hp8. cbn [snd] in Hp8.
  apply andThen_ok in Hrest as (u6 & w9 & H6 & Hrest).
  assert (bothPending key (accountId o) context w9) as Hp9.
  { change w9 with (Ok u6, w9).2. rewrite <- H6. revert Hp8. generalize w8.
    apply keeps_tryCatch.
    - apply keeps_andThen; [apply keeps_step|intros _; apply keeps_ret].
    - intros e. destruct (negb _); [apply keeps_throw|apply keeps_ret]. }
  by apply (closing_ok_gone key (accountId o) context _ _ _ _ _ _ _ _ Hp9 Hrest).
Qed.

End LoginFacts.

(* ================================================================== *)
(** * [src/auth.ts] *)
(* ================================================================== *)

Module Auth.
Import Js.

(** [crypto.createHash('sha256').update(s).digest('hex')], the platform's. *)
Class Sha256 : Type := { sha256hex : string -> string }.

(** A stored user. [username] and [passwordHash] are absent when
    [createUser] was given none; [role] is compared as a string. *)
Record User : Type := mkUser {
  username : option string;
  passwordHash : option string;
  role : string;
  allowedAccounts : N;
  createdAt : N;
}.

Record AuthSession : Type := mkSession {
  sessionUsername : option string;
  sessionRole : string;
  sessionAllowedAccounts : N;
  loginTime : N;
}.

(** [{ success, session?, message? }] *)
Record LoginResponse : Type := mkResponse {
  success : bool;
  session : option AuthSession;
  message : option string;
}.

(** The argument of [createUser]: a partial user that may carry a
    [password]. *)
Record NewUser : Type := mkNewUser {
  newUsername : option string;
  newPasswordHash : option string;
  newPassword : option string;
  newRole : option string;
  newAllowedAccounts : option N;
}.

(** The users file: absent, or the [users] array it holds. *)
Abbreviation UsersFile := (option (list User)).

Definition salt : string := "fsa_local_salt".

Definition truthyString (s : option string) : bool :=
  match s with
  | Some s => negb (Str.is_empty s)
  | None => false
  end.

Definition usersOf (file : UsersFile) : list User :=
  match file with Some users => users | None => [] end.

Definition textOf (s : option string) : string :=
  match s with Some s => s | None => EmptyString end.

Definition numberOf (n : option N) : N :=
  match n with Some n => n | None => 0%N end.

(** [n || 5] *)
Definition orFive (n : N) : N := if (n =? 0)%N then 5%N else n.

Definition errUnauthorized : JsError :=
  mkError "Error" "Unauthorized: Only admin can create users".
Definition errUsernameExists : JsError := mkError "Error" "Username already exists".
Definition errNoUsersFile : JsError :=
  mkError "Error" "ENOENT: no such file or directory, open".

Section WithHash.
Context `{Sha256}.

Definition defaultAdmin (now : N) : User :=
  {| username := Some "admin";
     passwordHash := Some (sha256hex ("admin123" +:+ salt));
     role := "admin";
     allowedAccounts := 9999%N;
     createdAt := now |}.

(** [initAuth()] *)
Definition initAuth (now : N) (file : UsersFile) : UsersFile :=
  match file with
  | None => Some [defaultAdmin now]
  | Some users => Some users
  end.

(** [data.users.find(u => u.username === name)] *)
Definition findUser (name : option string) (users : list User) : option User :=
  snd <$> list_find (fun u => username u = name) users.

(** [loginUser(username, password)] *)
Definition loginUser (name password : string) (now : N) (file : UsersFile)
  : LoginResponse * UsersFile :=
  let file1 := initAuth now file in
  match findUser (Some name) (usersOf file1) with
  | None => (mkResponse false None (Some "User not found"), file1)
  | Some user =>
      let hash := sha256hex (password +:+ salt) in
      if bool_decide (Some hash = passwordHash user)
      then (mkResponse true
              (Some {| sessionUsername := username user;
                       sessionRole := role user;
                       sessionAllowedAccounts := orFive (allowedAccounts user);
                       loginTime := now |})
              None, file1)
      else (mkResponse false None (Some "Invalid password"), file1)
  end.

(** [createUser(adminUsername, newUser)] *)
Definition createUser (adminUsername : string) (newUser : NewUser) (now : N)
    (file : UsersFile) : Result User * UsersFile :=
  match file with
  | None => (Throw errNoUsersFile, file)
  | Some users =>
      match findUser (Some adminUsername) users with
      | None => (Throw errUnauthorized, file)
      | Some admin =>
          if negb (String.eqb (role admin) "admin") then (Throw errUnauthorized, file)
          else if bool_decide (is_Some (findUser (newUsername newUser) users))
          then (Throw errUsernameExists, file)
          else
            let hash :=
              if negb (truthyString (newPasswordHash newUser))
                 && truthyString (newPassword newUser)
              then Some (sha256hex (textOf (newPassword newUser) +:+ salt))
              else newPasswordHash newUser in
            let user :=
              {| username := newUsername newUser;
                 passwordHash := hash;
                 role := if truthyString (newRole newUser)
                         then textOf (newRole newUser) else "staff";
                 allowedAccounts := orFive (numberOf (newAllowedAccounts newUser));
                 createdAt := now |} in
            (Ok user, Some (users ++ [user]))
      end
  end.

(** [getUsers()] *)
Definition getUsers (now : N) (file : UsersFile) : list User * UsersFile :=
  let file1 := initAuth now file in
  ((fun u => {| username := username u; passwordHash := Some "***"; role := role u;
                allowedAccounts := allowedAccounts u; createdAt := createdAt u |})
     <$> usersOf file1,
   file1).

(** ** Facts *)

Lemma findUser_app_new (name : option string) (users : list User) (user : User) :
  findUser name users = None -> username user = name ->
  findUser name (users ++ [user]) = Some user.
Proof.
  unfold findUser. intros Hnone Hname.
  destruct (list_find (fun u => username u = name) users) as [[i u]|] eqn:Hfind; [done|].
  rewrite list_find_app_r by done. cbn. by rewrite decide_True.
Qed.

Lemma orFive_idem (n : N) : orFive (orFive n) = orFive n.
Proof. unfold orFive. destruct (n =? 0)%N eqn:E; [done|]. by rewrite E. Qed.

(** What a successful [createUser] did. *)
Lemma createUser_ok_inv (adminUsername : string) (newUser : NewUser) (now : N)
    (file file' : UsersFile) (user : User) :
  createUser adminUsername newUser now file = (Ok user, file') ->
  exists users admin,
    file = Some users /\ file' = Some (users ++ [user]) /\
    findUser (Some adminUsername) users = Some admin /\ role admin = "admin" /\
    findUser (newUsername newUser) users = None /\
    username user = newUsername newUser /\
    allowedAccounts user = orFive (numberOf (newAllowedAccounts newUser)) /\
    (truthyString (newPasswordHash newUser) = false ->
     truthyString (newPassword newUser) = true ->
     passwordHash user
       = Some (sha256hex (textOf (newPassword newUser) +:+ salt))).
Proof.
  unfold createUser. destruct file as [users|]; [|done].
  destruct (findUser (Some adminUsername) users) as [admin|] eqn:Hadmin; [|done].
  destruct (String.eqb (role admin) "admin") eqn:Hrole; [|done]. cbn [negb].
  case_bool_decide as Hdup; [done|]. intros [= <- <-].
  exists users, admin. split_and!; try done.
  - by apply String.eqb_eq.
  - destruct (findUser (newUsername newUser) users); [|done].
    exfalso. apply Hdup. by eexists.
  - cbn [passwordHash]. by intros -> ->.
Qed.

(** X27. A user that [createUser] stored from a name and a password can
    log in with them: [loginUser] succeeds and the session carries the
    stored name, role and account allowance; with a password whose hash
    differs it answers "Invalid password". *)
Theorem created_user_can_login (adminUsername name password : string)
    (newUser : NewUser) (now now' : N) (file file' : UsersFile) (user : User) :
  newUsername newUser = Some name ->
  truthyString (newPasswordHash newUser) = false ->
  newPassword newUser = Some password ->
  Str.is_empty password = false ->
  createUser adminUsername newUser now file = (Ok user, file') ->
  loginUser name password now' file'
    = (mkResponse true
         (Some (mkSession (Some name) (role user) (allowedAccounts user) now'))
         None, file') /\
  forall other,
    sha256hex (other +:+ salt) <> sha256hex (password +:+ salt) ->
    loginUser name other now' file'
      = (mkResponse false None (Some "Invalid password"), file').
Proof.
  intros Hname Hnohash Hpw Hne Hcreate.
  apply createUser_ok_inv in Hcreate
    as (users & admin & -> & -> & Hadmin & Hrole & Hfresh & Huser & Hallowed & Hhash).
  rewrite Hname in Hfresh, Huser.
  specialize (Hhash Hnohash). rewrite Hpw in Hhash. cbn [truthyString textOf] in Hhash.
  rewrite Hne in Hhash. specialize (Hhash eq_refl).
  pose proof (findUser_app_new _ _ _ Hfresh Huser) as Hfind.
  unfold loginUser. cbn [initAuth usersOf]. rewrite Hfind, Hhash. split.
  - rewrite bool_decide_eq_true_2 by done. rewrite Huser, Hallowed, orFive_idem.
    by rewrite <- Hallowed.
  - intros other Hother. rewrite bool_decide_eq_false_2; [done|]. congruence.
Qed.

(** X28. [createUser] only ever appends: when it returns, the file holds
    the users it held before, in order, followed by the new user, whose name
    none of them had, so names that were unique stay unique; when it
    throws, the file is as it was. *)
Theorem createUser_appends_fresh_name (adminUsername : string) (newUser : NewUser)
    (now : N) (file : UsersFile) :
  match createUser adminUsername newUser now file with
  | (Ok user, file') =>
      exists users,
        file = Some users /\ file' = Some (users ++ [user]) /\
        (username user ∉ username <$> users) /\
        (NoDup (username <$> users) -> NoDup (username <$> users ++ [user]))
  | (Throw _, file') => file' = file
  end.
Proof.
  destruct (createUser adminUsername newUser now file) as [[user|e] file'] eqn:Hcreate.
  - apply createUser_ok_inv in Hcreate
      as (users & admin & -> & -> & _ & _ & Hfresh & Huser & _).
    exists users. split; [done|]. split; [done|].
    assert (username user ∉ username <$> users) as Hnot.
    { rewrite Huser. intros [u [Hu Hin]]%list_elem_of_fmap.
      unfold findUser in Hfresh.
      destruct (list_find (fun u => username u = newUsername newUser) users)
        as [[i u']|] eqn:Hfind; [done|].
      apply list_find_None in Hfind. rewrite Forall_forall in Hfind.
      by apply (Hfind u Hin). }
    split; [done|]. intros Hnodup. rewrite fmap_app.
    apply NoDup_app. split; [done|]. split; [|apply NoDup_singleton].
    intros x Hx ->%list_elem_of_singleton. done.
  - revert Hcreate. unfold createUser. destruct file as [users|]; [|by intros [= _ <-]].
    destruct (findUser (Some adminUsername) users) as [admin|]; [|by intros [= _ <-]].
    destruct (negb _); [by intros [= _ <-]|].
    case_bool_decide; [by intros [= _ <-]|done].
Qed.

(** X29. On a fresh installation (no users file) [loginUser] creates the
    default administrator and lets in exactly the name ["admin"] with a
    password that hashes like ["admin123"]: the session is that of role
    [admin] with 9999 accounts; every other name is "User not found". *)
Theorem fresh_install_login (name password : string) (now : N) :
  (loginUser name password now None).2 = Some [defaultAdmin now] /\
  (loginUser name password now None).1 =
    if bool_decide (name = "admin")
    then
      if bool_decide (sha256hex (password +:+ salt) = sha256hex ("admin123" +:+ salt))
      then mkResponse true (Some (mkSession (Some "admin") "admin" 9999%N now)) None
      else mkResponse false None (Some "Invalid password")
    else mkResponse false None (Some "User not found").
Proof.
  unfold loginUser, findUser. cbn [initAuth usersOf list_find].
  case_bool_decide as Hname.
  - subst name. cbn [username defaultAdmin]. rewrite decide_True by done.
    cbn [fmap option_fmap option_map snd].
    assert (passwordHash (defaultAdmin now)
            = Some (sha256hex ("admin123" +:+ salt))) as -> by done.
    destruct (decide (sha256hex (password +:+ salt) = sha256hex ("admin123" +:+ salt)))
      as [Heq|Hne].
    + rewrite !bool_decide_eq_true_2 by congruence. done.
    + rewrite !bool_decide_eq_false_2 by congruence. done.
  - cbn [username defaultAdmin]. rewrite decide_False by congruence. done.
Qed.

(** [getUsers] hands out no hash. *)
Lemma getUsers_masks_hashes (now : N) (file : UsersFile) :
  Forall (fun u => passwordHash u = Some "***") (getUsers now file).1.
Proof. unfold getUsers. cbn [fst]. apply Forall_fmap, Forall_true. done. Qed.

End WithHash.
End Auth.

(* ================================================================== *)
(** * The repair script [clean_accounts.cjs] *)
(* ================================================================== *)

Module CleanAccounts.
Import Js Accounts.

(** [value.substring(0, 50) + '...FIXED'] for a string of more than 500
    code units. *)
Definition cleanString (value : string) : string :=
  if 500 <? String.length value
  then String.substring 0 50 value +:+ "...FIXED"
  else value.

Definition cleanValue (value : jsval) : jsval :=
  match value with
  | JStr s => JStr (cleanString s)
  | _ => value
  end.

Definition isHuge (value : jsval) : bool :=
  match value with
  | JStr s => 500 <? String.length s
  | _ => false
  end.

(** The callback of [db.accounts.map]: every own property, [id] among
    them. *)
Definition cleanAccount (acc : Account) : Account :=
  {| id := cleanString (id acc); props := cleanValue <$> props acc |}.

(** Whether the callback sets [modified] on this account. *)
Definition accountModified (acc : Account) : bool :=
  (500 <? String.length (id acc)) ||
  bool_decide (Exists (fun kv => isHuge kv.2 = true) (map_to_list (props acc))).

(** The script on the accounts file: what the file holds afterwards. A
    file that is missing, does not parse, or has no [accounts] array makes
    the [try] block throw, and nothing is written. *)
Definition cleanScript (file : option FileContent) : option FileContent :=
  match file with
  | Some (Parsed (RawObject (Some accounts))) =>
      if existsb accountModified accounts
      then Some (Parsed (RawObject (Some (jsonAccount <$> (cleanAccount <$> accounts)))))
      else file
  | _ => file
  end.

(** The accounts a file holds under [accounts]. *)
Definition accountsOf (file : option FileContent) : list Account :=
  match file with
  | Some (Parsed (RawObject (Some accounts))) => accounts
  | _ => []
  end.

(** No string property, and no id, is longer than 500 code units. *)
Definition bounded (acc : Account) : Prop :=
  String.length (id acc) <= 500 /\
  forall k s, props acc !! k = Some (JStr s) -> String.length s <= 500.

Lemma length_append (a b : string) :
  String.length (a +:+ b) = String.length a + String.length b.
Proof. induction a as [|c a IH]; simpl; [done|]. by rewrite IH. Qed.

Lemma length_substring_le (n m : nat) (s : string) :
  String.length (String.substring n m s) <= m.
Proof.
  revert n m. induction s as [|c s IH]; intros n m.
  - destruct n, m; simpl; lia.
  - destruct n as [|n].
    + destruct m as [|m]; simpl; [lia|]. specialize (IH 0 m). lia.
    + simpl. apply IH.
Qed.

Lemma cleanString_bounded (s : string) : String.length (cleanString s) <= 500.
Proof.
  unfold cleanString. destruct (500 <? String.length s) eqn:E.
  - rewrite length_append. pose proof (length_substring_le 0 50 s).
    change (String.length "...FIXED") with 8. lia.
  - by apply Nat.ltb_ge in E.
Qed.

Lemma cleanAccount_bounded (acc : Account) : bounded (jsonAccount (cleanAccount acc)).
Proof.
  split; [apply cleanString_bounded|].
  intros k s. cbn [jsonAccount cleanAccount props].
  rewrite lookup_fmap, map_lookup_filter, lookup_fmap.
  destruct (props acc !! k) as [v|]; [|done]. cbn.
  case_guard; [|done]. cbn.
  destruct v; cbn; try done. intros [= <-]. apply cleanString_bounded.
Qed.

Lemma bounded_not_modified (acc : Account) : bounded acc -> accountModified acc = false.
Proof.
  intros [Hid Hprops]. unfold accountModified.
  apply orb_false_iff. split; [by apply Nat.ltb_ge|].
  apply bool_decide_eq_false_2. intros [[k v] [Hin Hhuge]]%Exists_exists.
  apply elem_of_map_to_list in Hin. destruct v; try done.
  cbn [isHuge snd] in Hhuge. apply Nat.ltb_lt in Hhuge. specialize (Hprops _ _ Hin). lia.
Qed.


End CleanAccounts.

(* ================================================================== *)
(** * Further runs *)
(* ================================================================== *)

Module Runs.
Import Buf Js Automation Scenarios.

(** ** The account store *)

(** A run of [AccountsFacts.upsert_then_getAccount]: a new flipkart
    account is added to the disk that holds [acc1] and is found again. *)
Lemma upsert_then_getAccount_witness :
  (Accounts.loadAccounts store1).1 = Ok [acc1] /\
  list_find (Accounts.hasId (Str.normalizeId " Acc2 ")) [acc1] = None /\
  (Accounts.upsertAccount (partialWithId " Acc2 ") now1 store1).1
    = Ok (Accounts.upsertIn (partialWithId " Acc2 ") now1 [acc1]).1 /\
  (Accounts.getAccount " Acc2 "
     (Accounts.upsertAccount (partialWithId " Acc2 ") now1 store1).2).1
    = Ok (Some (Accounts.jsonAccount
                  (Accounts.upsertIn (partialWithId " Acc2 ") now1 [acc1]).1)).
Proof.
  split; [reflexivity|]. split; [reflexivity|].
  apply (AccountsFacts.upsert_then_getAccount (partialWithId " Acc2 ") now1 store1 [acc1]);
    [reflexivity|reflexivity|reflexivity|left; reflexivity].
Defined.

(** A run of [AccountsFacts.updateAccountStatus_stored]: [acc1] is locked
    with an error code. *)
Lemma updateAccountStatus_stored_witness :
  (Accounts.loadAccounts store1).1 = Ok [acc1] /\
  list_find (Accounts.hasId (Str.normalizeId " ACC1 ")) [acc1] = Some (0, acc1) /\
  Accounts.storedProp
    (Accounts.updateAccountStatus " ACC1 " Accounts.Locked (Some "E42") now1 store1).2
    " ACC1 " "status" = Some (JStr "Locked") /\
  Accounts.storedProp
    (Accounts.updateAccountStatus " ACC1 " Accounts.Locked (Some "E42") now1 store1).2
    " ACC1 " "errorCode" = Some (JStr "E42").
Proof.
  split; [reflexivity|]. split; [reflexivity|].
  destruct (AccountsFacts.updateAccountStatus_stored " ACC1 " Accounts.Locked (Some "E42")
              now1 store1 [acc1] 0 acc1 eq_refl eq_refl eq_refl eq_refl)
    as (Hstatus & _ & _ & Hcode).
  split; [exact Hstatus|].
  apply Hcode; [discriminate|reflexivity|reflexivity].
Defined.

(** A run of [AccountsFacts.deleteAccount_removes_first]: deleting [acc1]
    leaves an empty document. *)
Lemma deleteAccount_removes_first_witness :
  (Accounts.loadAccounts store1).1 = Ok [acc1] /\
  (Accounts.deleteAccount "ACC1" store1).1 = Ok true /\
  Accounts.storedAccounts (Accounts.deleteAccount "ACC1" store1).2 = [].
Proof.
  split; [reflexivity|].
  pose proof (AccountsFacts.deleteAccount_removes_first "ACC1" store1 [acc1]
                eq_refl eq_refl eq_refl) as Hrun.
  change (list_find (Accounts.hasId (Str.normalizeId "ACC1")) [acc1])
    with (Some (0, acc1)) in Hrun.
  exact Hrun.
Defined.

(** ** Cookies *)

Definition adaptedPair : list obj :=
  [ {[ "name" := JStr "SN"; "value" := JStr "abc"; "domain" := JStr ".shopsy.in" ]} ;
    {[ "name" := JStr "pref"; "value" := JStr "1"; "domain" := JStr "example.com" ]} ].

(** A run of [CookieStore.adaptCookiesForShopsy_idempotent]. *)
Lemma adaptCookiesForShopsy_idempotent_witness :
  Cookies.adaptCookiesForShopsy [flipkartCookie; unrelatedCookie] = Ok adaptedPair /\
  Cookies.adaptCookiesForShopsy adaptedPair = Ok adaptedPair /\
  Forall (fun c' => exists d, c' !! "domain" = Some (JStr d) /\
                      Str.includes d "flipkart.com" = false) adaptedPair.
Proof.
  split; [vm_compute; reflexivity|].
  apply (CookieStore.adaptCookiesForShopsy_idempotent [flipkartCookie; unrelatedCookie]).
  vm_compute. reflexivity.
Defined.

(** ** The profile vault *)

(** The vault before a passphrase was set. *)
Definition lockedVault : ProfileStore.World :=
  {| ProfileStore.globalPassphrase := None;
     ProfileStore.files := ProfileStore.files vaultWorld;
     ProfileStore.dirs := ProfileStore.dirs vaultWorld |}.

(** A run of [ProfileStoreFacts.save_without_passphrase_leaves_archive]. *)
Lemma save_without_passphrase_leaves_archive_witness :
  ProfileStore.dirs lockedVault !! "data/profiles/flipkart/acc1/userDataDir"
    = Some vaultTree /\
  (@ProfileStore.saveProfileToDisk demoPrimitives demoArchiver
     "flipkart" " Acc1 " lockedVault demoEntropy).1.1
    = Throw ProfileStore.errPassphraseNotSet /\
  ProfileStore.files
    (@ProfileStore.saveProfileToDisk demoPrimitives demoArchiver
       "flipkart" " Acc1 " lockedVault demoEntropy).1.2
    !! "data/encrypted/flipkart/acc1.zip" = Some [x10; x20; x30].
Proof.
  split; [vm_compute; reflexivity|].
  destruct (@ProfileStoreFacts.save_without_passphrase_leaves_archive
              demoPrimitives demoArchiver "flipkart" " Acc1 " lockedVault demoEntropy
              vaultTree (or_introl eq_refl))
    as (Hthrow & Hzip & _); [vm_compute; reflexivity|].
  split; [exact Hthrow|exact Hzip].
Defined.

(** A run of [ProfileStoreFacts.save_leaves_only_backup] on the save of
    [Scenarios.vaultSaved]. *)
Lemma save_leaves_only_backup_witness :
  vaultSaved = (Ok "data/encrypted/flipkart/acc1.zip.enc", vaultSaved.1.2, vaultSaved.2) /\
  ProfileStore.files vaultSaved.1.2 !! "data/encrypted/flipkart/acc1.zip" = None /\
  ProfileStore.dirs vaultSaved.1.2 = ProfileStore.dirs vaultWorld.
Proof.
  split; [vm_compute; reflexivity|].
  destruct (@ProfileStoreFacts.save_leaves_only_backup demoPrimitives demoArchiver
              "flipkart" " Acc1 " vaultWorld vaultSaved.1.2 demoEntropy vaultSaved.2
              "data/encrypted/flipkart/acc1.zip.enc")
    as (Hzip & _ & Hdirs & _); [vm_compute; reflexivity|].
  split; [exact Hzip|exact Hdirs].
Defined.

(** An archiver that reads no archive back. *)
Definition brokenArchiver : ProfileStore.Archiver := {|
  ProfileStore.zipFolder := fun t => default [] (t !! "Cookies");
  ProfileStore.unzip := fun _ => None;
|}.

Definition failedRestore : Result string * ProfileStore.World :=
  @ProfileStore.restoreProfileFromDisk demoPrimitives brokenArchiver
    "flipkart" " Acc1 " vaultSaved.1.2.

(** A run of [ProfileStoreFacts.restore_failure_effects]: the backup
    decrypts, the archive cannot be read, and the profile directory is left
    empty. *)
Lemma restore_failure_effects_witness :
  failedRestore
    = (Throw (mkError "Error" "Invalid or unsupported zip format"), failedRestore.2) /\
  (failedRestore.2 = vaultSaved.1.2 \/
   exists decrypted,
     @ProfileStore.unzip brokenArchiver decrypted = None /\
     ProfileStore.dirs failedRestore.2
       !! ProfileStore.profilePathOf "flipkart" (Str.normalizeId " Acc1 ") = Some ∅ /\
     ProfileStore.files failedRestore.2
       !! ProfileStore.tempZipPathOf "flipkart" " Acc1 " = Some decrypted).
Proof.
  split; [vm_compute; reflexivity|].
  apply (@ProfileStoreFacts.restore_failure_effects demoPrimitives brokenArchiver
           "flipkart" " Acc1 " vaultSaved.1.2 failedRestore.2
           (mkError "Error" "Invalid or unsupported zip format")).
  vm_compute. reflexivity.
Defined.

(** ** The prober *)


(** What the [check] command collected for [acc1], probed, and for an
    account whose check threw. *)
Definition checkResults : list Cli.CheckEntry :=
  [ Cli.checkedEntry "acc1"
      (Health.checkAccountHealth Fingerprint.flipkart "acc1" probeSignedOut world1).1;
    Cli.failedEntry "acc2" errTargetClosed ].

(** A run of [Cli.check_summary_counts_all_as_error]. *)
Lemma check_summary_counts_all_as_error_witness :
  Forall Cli.pushedByCheck checkResults /\
  Cli.summary checkResults = (0, 0, 2).
Proof.
  assert (Forall Cli.pushedByCheck checkResults) as Hall.
  { constructor.
    - left. exists Fingerprint.flipkart, "acc1", probeSignedOut, world1. reflexivity.
    - constructor; [|constructor].
      right. exists "acc2", errTargetClosed. reflexivity. }
  split; [exact Hall|].
  exact (Cli.check_summary_counts_all_as_error checkResults Hall).
Defined.

(** ** The login flows *)

(** A run of [LoginFacts.loginShopsy_returns_unregistered]. *)
Lemma loginShopsy_returns_unregistered_witness :
  (Login.loginShopsy unattended shopsySmooth now1 world1).1
    = Ok (Login.mkResult "success" "Login completed and profile saved") /\
  "acc1-shopsy-login" ∉
    (BrowserManager.contexts
       (browsers (Login.loginShopsy unattended shopsySmooth now1 world1).2)).*1.
Proof.
  split; [vm_compute; reflexivity|].
  apply (LoginFacts.loginShopsy_returns_unregistered unattended shopsySmooth now1 world1
           (Login.mkResult "success" "Login completed and profile saved")).
  vm_compute. reflexivity.
Defined.

(** Flipkart, later: the window of the earlier login is still open. *)
Definition flipkartWindowOpen : Login.FlipkartEnv :=
  Login.mkFlipkartEnv true (Ok 5) (Done tt) true false (Done tt)
    (fun _ => Login.mkRound None None (Done tt) (Done tt))
    (Done tt) (Done tt) (Done 7) (Done tt) (Ok tt).

(** A run of [LoginFacts.loginFlipkart_keeps_window]. *)
Lemma loginFlipkart_keeps_window_witness :
  (Login.loginFlipkart attended flipkartAlreadyLoggedIn now1 world1).1
    = Ok (Login.mkResult "success" "Already logged in") /\
  Login.loginFlipkart attended flipkartWindowOpen now2 withLoginWindow
    = (Ok (Login.mkResult "success" "Browser already open"), withLoginWindow).
Proof.
  apply (LoginFacts.loginFlipkart_keeps_window attended flipkartAlreadyLoggedIn
           flipkartWindowOpen now1 now2 world1 1); reflexivity.
Defined.

(** Flipkart: the code arrives from the shared mailbox and every step goes
    through. *)
Definition flipkartSmooth : Login.FlipkartEnv :=
  Login.mkFlipkartEnv false (Ok 1) (Done tt) false true (Done tt)
    (fun _ => Login.mkRound None (Some "123456") (Done tt) (Done tt))
    (Done tt) (Done tt) (Done 7) (Done tt) (Ok tt).

(** A run of [LoginFacts.loginFlipkart_completed_unregistered]. *)
Lemma loginFlipkart_completed_unregistered_witness :
  (Login.loginFlipkart unattended flipkartSmooth now1 world1).1
    = Ok (Login.mkResult "success" "Login completed") /\
  ("acc1-flipkart-login" ∉
     (BrowserManager.contexts
        (browsers (Login.loginFlipkart unattended flipkartSmooth now1 world1).2)).*1) /\
  "acc1" ∉
    (BrowserManager.contexts
       (activeContexts (Login.loginFlipkart unattended flipkartSmooth now1 world1).2)).*1.
Proof.
  split; [vm_compute; reflexivity|].
  apply (LoginFacts.loginFlipkart_completed_unregistered unattended flipkartSmooth now1
           world1 (Login.mkResult "success" "Login completed")).
  - vm_compute. reflexivity.
  - reflexivity.
Defined.

(** ** Users *)

(** A stand-in for the hash: the text itself. *)
Definition demoSha256 : Auth.Sha256 := {| Auth.sha256hex := fun s => s |}.

Definition usersFile : Auth.UsersFile := Some [@Auth.defaultAdmin demoSha256 1].

(** [{ username: 'asha', password: 's3cret' }] *)
Definition newStaff : Auth.NewUser :=
  Auth.mkNewUser (Some "asha") None (Some "s3cret") None None.

Definition staffUser : Auth.User :=
  Auth.mkUser (Some "asha") (Some "s3cretfsa_local_salt") "staff" 5 2.

(** A run of [Auth.created_user_can_login]. *)
Lemma created_user_can_login_witness :
  @Auth.createUser demoSha256 "admin" newStaff 2 usersFile
    = (Ok staffUser, Some [@Auth.defaultAdmin demoSha256 1; staffUser]) /\
  @Auth.loginUser demoSha256 "asha" "s3cret" 3
      (Some [@Auth.defaultAdmin demoSha256 1; staffUser])
    = (Auth.mkResponse true (Some (Auth.mkSession (Some "asha") "staff" 5 3)) None,
       Some [@Auth.defaultAdmin demoSha256 1; staffUser]) /\
  @Auth.loginUser demoSha256 "asha" "guess" 3
      (Some [@Auth.defaultAdmin demoSha256 1; staffUser])
    = (Auth.mkResponse false None (Some "Invalid password"),
       Some [@Auth.defaultAdmin demoSha256 1; staffUser]).
Proof.
  split; [vm_compute; reflexivity|].
  destruct (@Auth.created_user_can_login demoSha256 "admin" "asha" "s3cret" newStaff 2 3
              usersFile (Some [@Auth.defaultAdmin demoSha256 1; staffUser]) staffUser
              eq_refl eq_refl eq_refl eq_refl)
    as (Hlogin & Hother); [vm_compute; reflexivity|].
  split; [exact Hlogin|].
  apply Hother. vm_compute. discriminate.
Defined.

End Runs.
